(** * rqt_lifecycle_manager: a shallow embedding of the plugin and its table model

    The development follows [src/rqt_lifecycle_manager/lifecycle_manager.py].
    The plugin object becomes a record, its methods become computations in a
    state-and-exception monad over that record, and the three functions of
    [ros2lifecycle.api] that the plugin calls become oracles indexed by the
    number of service calls made so far, so that a service may answer
    differently each time it is asked. *)

From Stdlib Require Import ZArith String List.
From stdpp Require Import base option list gmap strings sorting pretty.

(** ** Python values that cross the service boundary *)

Inductive exn_class : Type :=
  | RuntimeError
  | KeyError
  | IndexError
  | AttributeError
  | OtherException.

Record exn : Type := Exn { exn_kind : exn_class; exn_text : string }.

#[global] Instance exn_class_eq_dec : EqDecision exn_class.
Proof. solve_decision. Defined.
#[global] Instance exn_eq_dec : EqDecision exn.
Proof. solve_decision. Defined.

(** [except RuntimeError] catches exactly the instances of that class. *)
Definition is_RuntimeError (e : exn) : bool :=
  match exn_kind e with RuntimeError => true | _ => false end.

(** [ros2node.api.NodeName], the element type of the discovery listing. *)
Record NodeName : Type :=
  mkNodeName { nn_name : string; nn_namespace : string; nn_full_name : string }.

#[global] Instance NodeName_eq_dec : EqDecision NodeName.
Proof. solve_decision. Defined.

(** [NodeState = namedtuple("NodeState", ["name", "state"])] *)
Record NodeState : Type := mkNodeState { name : string; state : string }.

#[global] Instance NodeState_eq_dec : EqDecision NodeState.
Proof. solve_decision. Defined.

(** A value of the mapping returned by [call_get_states]: a
    [lifecycle_msgs.msg.State], of which only [label] is read, the
    exception object of the future, or [None] when the future holds
    neither a result nor an exception. *)
Inductive StateValue : Type :=
  | StateMsg (label : string)
  | StateExc (e : exn)
  | StateNone.

#[global] Instance StateValue_eq_dec : EqDecision StateValue.
Proof. solve_decision. Defined.

(** A value of the mapping returned by [call_change_states]: the [success]
    flag of the response, an exception object, or [None]. *)
Inductive ChangeValue : Type :=
  | ChangeBool (b : bool)
  | ChangeNone
  | ChangeExc (e : exn).

(** What [get_node_names] does: return a list or raise. *)
Inductive Discovery : Type :=
  | Nodes (l : list NodeName)
  | DiscoveryRaises (e : exn).

(** The three services, as seen at the [n]-th service call of a run. *)
Record Ros : Type := mkRos {
  get_node_names : nat → Discovery;
  call_get_states : nat → list string → gmap string StateValue;
  call_change_states : nat → gmap string string → gmap string ChangeValue
}.

(** One entry of the log of service invocations. *)
Inductive Call : Type :=
  | ListNodes
  | GetStates (node_names : list string)
  | ChangeStates (transitions : gmap string string).

#[global] Instance Call_eq_dec : EqDecision Call.
Proof. solve_decision. Defined.

(** ** Qt values used by the table model *)

Record QIcon : Type := mkQIcon { icon_file : string }.

Inductive ItemDataRole : Type :=
  | DisplayRole
  | DecorationRole
  | FontRole
  | TextAlignmentRole
  | OtherRole.

#[global] Instance ItemDataRole_eq_dec : EqDecision ItemDataRole.
Proof. solve_decision. Defined.

(** [row()] and [column()] of a [QModelIndex] are C [int]s. *)
Record QModelIndex : Type :=
  mkIndex { isValid : bool; row : Z; column : Z }.

Definition c_int (z : Z) : Prop := (- 2 ^ 31 ≤ z < 2 ^ 31)%Z.

Inductive PyValue : Type :=
  | PyNone
  | PyStr (s : string)
  | PyIcon (i : QIcon)
  | PyBoldFont
  | PyAlignCenter.

Record LifecycleNodeTable : Type :=
  mkTable { _data : list NodeState; tbl_icons : gmap string QIcon }.

(** ** The plugin object *)

Record LifecycleManager : Type := mkPlugin {
  _lc_node_names : list NodeName;
  _lc_nodes : list NodeState;
  _table_model : option LifecycleNodeTable;
  _icons : gmap string QIcon;
  clock : nat;
  calls : list Call;
  stdout : list string;
  stderr : list string
}.

(** ** State and exception monad *)

Inductive Result (A : Type) : Type :=
  | Ok (a : A)
  | Raise (e : exn).
Arguments Ok {A} a.
Arguments Raise {A} e.

Definition M (A : Type) : Type := LifecycleManager → Result A * LifecycleManager.

#[global] Instance M_ret : MRet M := λ A a self, (Ok a, self).
#[global] Instance M_bind : MBind M := λ A B f m self,
  match m self with
  | (Ok a, self') => f a self'
  | (Raise e, self') => (Raise e, self')
  end.

Definition raise {A} (e : exn) : M A := λ self, (Raise e, self).
Definition get_self : M LifecycleManager := λ self, (Ok self, self).

(** [try: body except RuntimeError as e: handler e] *)
Definition try_except_RuntimeError {A} (body : M A) (handler : exn → M A) : M A :=
  λ self,
    match body self with
    | (Raise e, self') => if is_RuntimeError e then handler e self' else (Raise e, self')
    | r => r
    end.

(** [for x in l: body x] *)
Fixpoint for_each {A} (l : list A) (body : A → M unit) : M unit :=
  match l with
  | [] => mret tt
  | x :: l' => body x ;; for_each l' body
  end.

(** [for x in l: v = body x v], with a local variable [v] carried along. *)
Fixpoint for_fold {A V} (l : list A) (body : A → V → M V) (v : V) : M V :=
  match l with
  | [] => mret v
  | x :: l' => v' ← body x v; for_fold l' body v'
  end.

(** ** Python primitives *)

Definition str_le (s1 s2 : string) : Prop := String.leb s1 s2 = true.

#[global] Instance str_le_dec : RelDecision str_le.
Proof. intros s1 s2. unfold str_le. apply _. Defined.

(** [sorted(d.keys())] for a dictionary with [str] keys. *)
Definition sorted_keys {V} (d : gmap string V) : list string :=
  merge_sort str_le (map_to_list d).*1.

(** [d[k]], which raises [KeyError] for a missing key. *)
Definition dict_getitem {V} (d : gmap string V) (k : string) : M V :=
  match d !! k with
  | Some v => mret v
  | None => raise (Exn KeyError k)
  end.

(** [l[i]] for a list, with Python's reading of negative indices; [None]
    stands for [IndexError]. *)
Definition py_index {A} (l : list A) (i : Z) : option A :=
  let idx := if (i <? 0)%Z then (Z.of_nat (length l) + i)%Z else i in
  if (idx <? 0)%Z then None else l !! Z.to_nat idx.

(** The [IndexError] of [l[i]]: an index that does not fit [Py_ssize_t]
    (64 bits) is refused before the list is looked at. *)
Definition index_error (i : Z) : exn :=
  Exn IndexError
    (if (- 2 ^ 63 <=? i)%Z && (i <? 2 ^ 63)%Z
     then "list index out of range"
     else "cannot fit 'int' into an index-sized integer").

Definition list_getitem {A} (l : list A) (i : Z) : M A :=
  match py_index l i with
  | Some x => mret x
  | None => raise (index_error i)
  end.

Definition print (line : string) : M unit := λ self,
  (Ok tt, mkPlugin (_lc_node_names self) (_lc_nodes self) (_table_model self)
            (_icons self) (clock self) (calls self)
            (stdout self ++ [line]) (stderr self)).

Definition print_stderr (line : string) : M unit := λ self,
  (Ok tt, mkPlugin (_lc_node_names self) (_lc_nodes self) (_table_model self)
            (_icons self) (clock self) (calls self)
            (stdout self) (stderr self ++ [line])).

Definition set_lc_node_names (v : list NodeName) : M unit := λ self,
  (Ok tt, mkPlugin v (_lc_nodes self) (_table_model self) (_icons self)
            (clock self) (calls self) (stdout self) (stderr self)).

Definition set_lc_nodes (v : list NodeState) : M unit := λ self,
  (Ok tt, mkPlugin (_lc_node_names self) v (_table_model self) (_icons self)
            (clock self) (calls self) (stdout self) (stderr self)).

Definition set_table_model (v : option LifecycleNodeTable) : M unit := λ self,
  (Ok tt, mkPlugin (_lc_node_names self) (_lc_nodes self) v (_icons self)
            (clock self) (calls self) (stdout self) (stderr self)).

(** A service invocation is logged and advances the clock; the value
    returned is the clock reading at which the service is asked. *)
Definition invoke (c : Call) : M nat := λ self,
  (Ok (clock self),
   mkPlugin (_lc_node_names self) (_lc_nodes self) (_table_model self)
     (_icons self) (S (clock self)) (calls self ++ [c])
     (stdout self) (stderr self)).

(** ** The table model *)

Module LifecycleNodeTable.

Definition rowCount (self : LifecycleNodeTable) : nat := length (_data self).

Definition columnCount (self : LifecycleNodeTable) : nat := 2.

Definition headerData (col : Z) (horizontal : bool) (role : ItemDataRole)
  : PyValue :=
  if negb horizontal || negb (bool_decide (role = DisplayRole)) then PyNone
  else if (col =? 0)%Z then PyStr "node"
  else if (col =? 1)%Z then PyStr "state"
  else PyNone.

(** [x or "not loaded"] on a string. *)
Definition or_not_loaded (x : string) : string :=
  if decide (x = "") then "not loaded" else x.

(** [self._icons.get(key)] *)
Definition icons_get (d : gmap string QIcon) (key : string) : PyValue :=
  match d !! key with Some i => PyIcon i | None => PyNone end.

Definition data (self : LifecycleNodeTable) (index : QModelIndex)
    (role : ItemDataRole) : Result PyValue :=
  if negb (isValid index) then Ok PyNone
  else
    match py_index (_data self) (row index) with
    | None => Raise (index_error (row index))
    | Some lc_node =>
        let after_display :=
          if bool_decide (role = DecorationRole) && (column index =? 0)%Z
          then icons_get (tbl_icons self) (state lc_node)
          else if bool_decide (role = FontRole) && (column index =? 0)%Z
          then PyBoldFont
          else if bool_decide (role = TextAlignmentRole) && (column index =? 1)%Z
          then PyAlignCenter
          else PyNone in
        if bool_decide (role = DisplayRole) then
          if (column index =? 0)%Z then Ok (PyStr (name lc_node))
          else if (column index =? 1)%Z
          then Ok (PyStr (or_not_loaded (state lc_node)))
          else Ok after_display
        else Ok after_display
    end.

End LifecycleNodeTable.

(** ** The plugin's methods *)

Inductive QAction : Type :=
  | action_deactivate
  | action_unspawn
  | action_shutdown
  | action_activate
  | action_cleanup
  | action_configure
  | action_spawn.

#[global] Instance QAction_eq_dec : EqDecision QAction.
Proof. solve_decision. Defined.

Record MenuEntry : Type :=
  mkEntry { entry_icon : QIcon; entry_text : string; entry_action : QAction }.

(** The icon table built in [__init__]; [path] is the package share
    directory. *)
Definition lc_state_icons (path : string) : gmap string QIcon :=
  <["unconfigured" := mkQIcon (path +:+ "/resource/led_off.png")]>
  (<["inactive" := mkQIcon (path +:+ "/resource/led_red.png")]>
  (<["finalized" := mkQIcon (path +:+ "/resource/led_off.png")]>
  (<["active" := mkQIcon (path +:+ "/resource/led_green.png")]> ∅))).

(** The members as [__init__] leaves them. *)
Definition __init__ (path : string) : LifecycleManager :=
  mkPlugin [] [] None (lc_state_icons path) 0 [] [] [].

Section Plugin.

Variable ros : Ros.

Definition ros_get_node_names : M (list NodeName) :=
  t ← invoke ListNodes;
  match get_node_names ros t with
  | Nodes l => mret l
  | DiscoveryRaises e => raise e
  end.

Definition ros_call_get_states (node_names : list string)
  : M (gmap string StateValue) :=
  t ← invoke (GetStates node_names);
  mret (call_get_states ros t node_names).

Definition ros_call_change_states (transitions : gmap string string)
  : M (gmap string ChangeValue) :=
  t ← invoke (ChangeStates transitions);
  mret (call_change_states ros t transitions).

Definition _list_lc_nodes : M (list NodeName) :=
  try_except_RuntimeError
    ros_get_node_names
    (λ e, print (exn_text e) ;; mret []).

Definition _show_lc_nodes : M unit :=
  self ← get_self;
  set_table_model (Some (mkTable (_lc_nodes self) (_icons self))).

(** What [None.label] raises. *)
Definition no_label : exn :=
  Exn AttributeError "'NoneType' object has no attribute 'label'".

(** [state.label]; neither [None] nor an exception object has such an
    attribute.  The second loop meets no exception object, the first one
    having deleted them. *)
Definition state_label (v : StateValue) : M string :=
  match v with
  | StateMsg label => mret label
  | StateNone => raise no_label
  | StateExc e => raise (Exn AttributeError "label")
  end.

Definition exception_line (node_name : string) (e : exn) : string :=
  "Exception while calling service of node '" +:+ node_name +:+ "': "
    +:+ exn_text e.

(** The first inner loop: report and delete the exception entries. *)
Definition output_exceptions (states : gmap string StateValue)
  : M (gmap string StateValue) :=
  for_fold (sorted_keys states)
    (λ node_name states,
       st ← dict_getitem states node_name;
       match st with
       | StateExc e =>
           print_stderr (exception_line node_name e) ;;
           mret (delete node_name states)
       | StateMsg _ | StateNone => mret states
       end)
    states.

(** The second inner loop: append one row per remaining entry. *)
Definition output_current_states (states : gmap string StateValue) : M unit :=
  for_each (sorted_keys states)
    (λ node_name,
       st ← dict_getitem states node_name;
       label ← state_label st;
       self ← get_self;
       set_lc_nodes (_lc_nodes self ++ [mkNodeState node_name label])).

Definition _update_nodes_state : M unit :=
  set_lc_nodes [] ;;
  self ← get_self;
  for_each (_lc_node_names self)
    (λ lc_node,
       states ← ros_call_get_states [nn_name lc_node];
       states ← output_exceptions states;
       output_current_states states) ;;
  _show_lc_nodes.

Definition _update_node_list : M unit :=
  node_names ← _list_lc_nodes;
  self ← get_self;
  if decide (_lc_node_names self ≠ node_names) then
    set_lc_node_names node_names ;;
    _update_nodes_state
  else mret tt.

Definition _call_transition (node_name transition_label : string) : M unit :=
  results ← ros_call_change_states {[ node_name := transition_label ]};
  result ← dict_getitem results node_name;
  match result with
  | ChangeExc e => print_stderr (exception_line node_name e)
  | ChangeBool true => print "Transitioning successful"
  | ChangeBool false | ChangeNone => print_stderr "Transitioning failed"
  end.

(** [menu.addAction(self._icons[key], text)] *)
Definition addAction (menu : list MenuEntry) (key text : string)
    (a : QAction) : M (list MenuEntry) :=
  self ← get_self;
  icon ← dict_getitem (_icons self) key;
  mret (menu ++ [mkEntry icon text a]).

Definition build_menu (lc_node : NodeState) : M (list MenuEntry) :=
  if decide (state lc_node = "active") then
    menu ← addAction [] "inactive" "Deactivate" action_deactivate;
    menu ← addAction menu "unconfigured" "Deactivate and cleanup" action_unspawn;
    addAction menu "finalized" "Shutdown" action_shutdown
  else if decide (state lc_node = "inactive") then
    menu ← addAction [] "active" "Activate" action_activate;
    menu ← addAction menu "unconfigured" "Cleanup" action_cleanup;
    addAction menu "finalized" "Shutdown" action_shutdown
  else if decide (state lc_node = "unconfigured") then
    menu ← addAction [] "inactive" "Configure" action_configure;
    menu ← addAction menu "active" "Configure and Activate" action_spawn;
    addAction menu "finalized" "Shutdown" action_shutdown
  else mret [].

Definition evaluate_action (lc_node : NodeState) (action : option QAction)
  : M unit :=
  if decide (state lc_node = "active") then
    if decide (action = Some action_deactivate) then
      _call_transition (name lc_node) "deactivate"
    else if decide (action = Some action_shutdown) then
      _call_transition (name lc_node) "shutdown"
    else if decide (action = Some action_unspawn) then
      _call_transition (name lc_node) "deactivate" ;;
      _call_transition (name lc_node) "cleanup"
    else mret tt
  else if decide (state lc_node = "inactive") then
    if decide (action = Some action_activate) then
      _call_transition (name lc_node) "activate"
    else if decide (action = Some action_cleanup) then
      _call_transition (name lc_node) "cleanup"
    else if decide (action = Some action_shutdown) then
      _call_transition (name lc_node) "shutdown"
    else mret tt
  else if decide (state lc_node = "unconfigured") then
    if decide (action = Some action_configure) then
      _call_transition (name lc_node) "configure"
    else if decide (action = Some action_shutdown) then
      _call_transition (name lc_node) "shutdown"
    else if decide (action = Some action_spawn) then
      _call_transition (name lc_node) "configure" ;;
      _call_transition (name lc_node) "activate"
    else mret tt
  else mret tt.

(** [row] is what [rowAt(pos.y())] returned and [exec_] is the operator:
    given the menu shown, the action picked, or [None] when the menu is
    dismissed. *)
Definition _on_lc_node_menu (row : Z)
    (exec_ : list MenuEntry → option QAction) : M unit :=
  if (row <? 0)%Z then mret tt
  else
    self ← get_self;
    lc_node ← list_getitem (_lc_nodes self) row;
    menu ← build_menu lc_node;
    let action := exec_ menu in
    evaluate_action lc_node action.

(** ** The event loop *)

Inductive event : Type :=
  | update_node_list_timeout
  | update_nodes_state_timeout
  | customContextMenuRequested (row : Z)
      (exec_ : list MenuEntry → option QAction).

Definition slot (ev : event) : M unit :=
  match ev with
  | update_node_list_timeout => _update_node_list
  | update_nodes_state_timeout => _update_nodes_state
  | customContextMenuRequested row exec_ => _on_lc_node_menu row exec_
  end.

(** The plugin after the events [evs] have been delivered in order. *)
Definition run (evs : list event) (self : LifecycleManager)
  : LifecycleManager :=
  fold_left (λ self ev, (slot ev self).2) evs self.

(** What the table view shows: the rows of the model last installed. *)
Definition snapshot (self : LifecycleManager) : list NodeState :=
  match _table_model self with
  | Some tbl => _data tbl
  | None => []
  end.

End Plugin.

(** ** Closed forms of the loops, used to state the results *)

Definition add_stderr (lines : list string) (self : LifecycleManager)
  : LifecycleManager :=
  mkPlugin (_lc_node_names self) (_lc_nodes self) (_table_model self)
    (_icons self) (clock self) (calls self) (stdout self)
    (stderr self ++ lines).

Definition add_lc_nodes (rows : list NodeState) (self : LifecycleManager)
  : LifecycleManager :=
  mkPlugin (_lc_node_names self) (_lc_nodes self ++ rows) (_table_model self)
    (_icons self) (clock self) (calls self) (stdout self) (stderr self).

(** The dictionary left by the first inner loop run over the keys [ks]. *)
Fixpoint delete_exceptions (ks : list string) (d : gmap string StateValue)
  : gmap string StateValue :=
  match ks with
  | [] => d
  | k :: ks' =>
      delete_exceptions ks'
        (match d !! k with Some (StateExc _) => delete k d | _ => d end)
  end.

(** The lines the first inner loop writes to stderr. *)
Fixpoint exception_lines (ks : list string) (d : gmap string StateValue)
  : list string :=
  match ks with
  | [] => []
  | k :: ks' =>
      match d !! k with
      | Some (StateExc e) =>
          exception_line k e :: exception_lines ks' (delete k d)
      | _ => exception_lines ks' d
      end
  end.

(** The rows the second inner loop appends for the keys [ks] when every
    entry is a state. *)
Definition rows_of (ks : list string) (d : gmap string StateValue)
  : list NodeState :=
  omap (λ k, match d !! k with
             | Some (StateMsg label) => Some (mkNodeState k label)
             | _ => None
             end) ks.

(** The rows the second inner loop has appended when it ends or is left:
    it is left at the first entry that is not a state. *)
Fixpoint rows_until_none (ks : list string) (d : gmap string StateValue)
  : list NodeState :=
  match ks with
  | [] => []
  | k :: ks' =>
      match d !! k with
      | Some (StateMsg label) => mkNodeState k label :: rows_until_none ks' d
      | _ => []
      end
  end.

(** No value of the answer is [None]. *)
Definition loaded (d : gmap string StateValue) : bool :=
  bool_decide (map_Forall (λ _ v, v ≠ StateNone) d).

(** One query batch: the answer to the query for [lc_node] asked at clock
    reading [t], its surviving entries and the rows and lines they give. *)
Definition batch_answer (ros : Ros) (t : nat) (lc_node : NodeName)
  : gmap string StateValue :=
  call_get_states ros t [nn_name lc_node].

Definition batch_survivors (ros : Ros) (t : nat) (lc_node : NodeName)
  : gmap string StateValue :=
  delete_exceptions (sorted_keys (batch_answer ros t lc_node))
    (batch_answer ros t lc_node).

Definition batch_rows (ros : Ros) (t : nat) (lc_node : NodeName)
  : list NodeState :=
  rows_of (sorted_keys (batch_survivors ros t lc_node))
    (batch_survivors ros t lc_node).

Definition batch_lines (ros : Ros) (t : nat) (lc_node : NodeName)
  : list string :=
  exception_lines (sorted_keys (batch_answer ros t lc_node))
    (batch_answer ros t lc_node).

(** The rows appended for a batch in any case: those of [batch_rows]
    up to the first entry that is [None]. *)
Definition batch_partial_rows (ros : Ros) (t : nat) (lc_node : NodeName)
  : list NodeState :=
  rows_until_none (sorted_keys (batch_survivors ros t lc_node))
    (batch_survivors ros t lc_node).

(** All batches of one state refresh that starts at clock reading [t]. *)
Fixpoint all_rows (ros : Ros) (t : nat) (names : list NodeName)
  : list NodeState :=
  match names with
  | [] => []
  | n :: names' => batch_rows ros t n ++ all_rows ros (S t) names'
  end.

Fixpoint all_lines (ros : Ros) (t : nat) (names : list NodeName)
  : list string :=
  match names with
  | [] => []
  | n :: names' => batch_lines ros t n ++ all_lines ros (S t) names'
  end.

(** No answer of a state refresh that starts at clock reading [t] holds
    [None]: the refresh runs to its end. *)
Fixpoint refresh_loaded (ros : Ros) (t : nat) (names : list NodeName) : bool :=
  match names with
  | [] => true
  | n :: names' =>
      loaded (batch_answer ros t n) && refresh_loaded ros (S t) names'
  end.

(** The number of nodes a state refresh queries: all of them, or those up
    to the first whose answer holds [None]. *)
Fixpoint queried (ros : Ros) (t : nat) (names : list NodeName) : nat :=
  match names with
  | [] => 0
  | n :: names' =>
      if loaded (batch_answer ros t n) then S (queried ros (S t) names')
      else 1
  end.

(** The rows a state refresh has gathered when it ends or is left. *)
Fixpoint gathered_rows (ros : Ros) (t : nat) (names : list NodeName)
  : list NodeState :=
  match names with
  | [] => []
  | n :: names' =>
      if loaded (batch_answer ros t n)
      then batch_rows ros t n ++ gathered_rows ros (S t) names'
      else batch_partial_rows ros t n
  end.

(** The transition requests among logged calls, as (node, label) pairs. *)
Definition transition_requests (cs : list Call) : list (string * string) :=
  cs ≫= λ c, match c with
             | ChangeStates transitions => map_to_list transitions
             | _ => []
             end.

(** The menu shown for a row in state [st], with the icons of [__init__]. *)
Definition menu_entries (path : string) (st : string) : list MenuEntry :=
  let off := mkQIcon (path +:+ "/resource/led_off.png") in
  let red := mkQIcon (path +:+ "/resource/led_red.png") in
  let green := mkQIcon (path +:+ "/resource/led_green.png") in
  if decide (st = "active") then
    [mkEntry red "Deactivate" action_deactivate;
     mkEntry off "Deactivate and cleanup" action_unspawn;
     mkEntry off "Shutdown" action_shutdown]
  else if decide (st = "inactive") then
    [mkEntry green "Activate" action_activate;
     mkEntry off "Cleanup" action_cleanup;
     mkEntry off "Shutdown" action_shutdown]
  else if decide (st = "unconfigured") then
    [mkEntry red "Configure" action_configure;
     mkEntry green "Configure and Activate" action_spawn;
     mkEntry off "Shutdown" action_shutdown]
  else [].

(** The plugin as a state refresh that runs to its end leaves it. *)
Definition refreshed (ros : Ros) (self : LifecycleManager) : LifecycleManager :=
  let rows := all_rows ros (clock self) (_lc_node_names self) in
  mkPlugin (_lc_node_names self) rows
    (Some (mkTable rows (_icons self))) (_icons self)
    (clock self + length (_lc_node_names self))
    (calls self ++ ((λ n, GetStates [nn_name n]) <$> _lc_node_names self))
    (stdout self)
    (stderr self ++ all_lines ros (clock self) (_lc_node_names self)).

(** The plugin as a state refresh leaves it when [state.label] raises:
    the rows gathered so far are in [_lc_nodes], the queries made so far
    are logged, and the table model is the one installed before. *)
Definition interrupted (ros : Ros) (self : LifecycleManager)
  : LifecycleManager :=
  let names := _lc_node_names self in
  let q := queried ros (clock self) names in
  mkPlugin names (gathered_rows ros (clock self) names)
    (_table_model self) (_icons self) (clock self + q)
    (calls self ++ ((λ n, GetStates [nn_name n]) <$> take q names))
    (stdout self)
    (stderr self ++ all_lines ros (clock self) (take q names)).

(** What [_update_nodes_state] does, in closed form. *)
Definition refresh_outcome (ros : Ros) (self : LifecycleManager)
  : Result unit * LifecycleManager :=
  if refresh_loaded ros (clock self) (_lc_node_names self)
  then (Ok tt, refreshed ros self)
  else (Raise no_label, interrupted ros self).

(** The members the table view and the menu are built from. *)
Definition view (self : LifecycleManager)
  : list NodeName * list NodeState * option LifecycleNodeTable
    * gmap string QIcon :=
  (_lc_node_names self, _lc_nodes self, _table_model self, _icons self).

(** The plugin once the service invocation [c] has been logged. *)
Definition invoked (c : Call) (self : LifecycleManager) : LifecycleManager :=
  mkPlugin (_lc_node_names self) (_lc_nodes self) (_table_model self)
    (_icons self) (S (clock self)) (calls self ++ [c])
    (stdout self) (stderr self).

(** A response value that reports a transition as not done. *)
Definition is_failure (v : ChangeValue) : bool :=
  match v with ChangeBool true => false | _ => true end.

(** The line [_call_transition] prints for a response value, and the
    stream it goes to. *)
Definition transition_line (node_name : string) (v : ChangeValue) : string :=
  match v with
  | ChangeExc e => exception_line node_name e
  | ChangeBool true => "Transitioning successful"
  | ChangeBool false | ChangeNone => "Transitioning failed"
  end.

(** What the answer [o] to a transition request adds to stdout and to
    stderr; [o] is [None] when the answer lacks the node. *)
Definition stdout_lines (node_name : string) (o : option ChangeValue)
  : list string :=
  match o with
  | Some v => if is_failure v then [] else [transition_line node_name v]
  | None => []
  end.

Definition stderr_lines (node_name : string) (o : option ChangeValue)
  : list string :=
  match o with
  | Some v => if is_failure v then [transition_line node_name v] else []
  | None => []
  end.

(** ** Concrete runs *)

Definition node_a : NodeName := mkNodeName "a" "/" "/a".
Definition node_b : NodeName := mkNodeName "b" "/" "/b".

(** Every queried node reports [label]. *)
Definition all_in_state (label : string) (node_names : list string)
  : gmap string StateValue :=
  list_to_map ((λ n, (n, StateMsg label)) <$> node_names).

(** One unconfigured node [a] whose transitions are all refused. *)
Definition ros_refusing : Ros :=
  mkRos (λ _, Nodes [node_a])
        (λ _, all_in_state "unconfigured")
        (λ _ transitions, (λ _, ChangeBool false) <$> transitions).

(** As [ros_refusing], but the transition service answers with an empty
    mapping. *)
Definition ros_silent : Ros :=
  mkRos (λ _, Nodes [node_a])
        (λ _, all_in_state "unconfigured")
        (λ _ _, ∅).

(** The plugin showing node [a] as unconfigured, after one listing. *)
Definition shown_unconfigured : LifecycleManager :=
  run ros_refusing [update_node_list_timeout] (__init__ "/share").

(** Two active nodes; the directory answers the first listing and fails
    with [RuntimeError] from then on. *)
Definition ros_outage : Ros :=
  mkRos (λ t, if decide (t = 0) then Nodes [node_a; node_b]
              else DiscoveryRaises (Exn RuntimeError "discovery unreachable"))
        (λ _, all_in_state "active")
        (λ _ transitions, (λ _, ChangeBool true) <$> transitions).

(** Two nodes, both active during the first refresh; afterwards the
    query for [a] yields an exception and [b] reports inactive. *)
Definition ros_flaky : Ros :=
  mkRos (λ _, Nodes [node_a; node_b])
        (λ t node_names,
           if decide (t ≤ 2) then all_in_state "active" node_names
           else list_to_map
                  ((λ n, (n, if decide (n = "a")
                             then StateExc (Exn OtherException "timed out")
                             else StateMsg "inactive")) <$> node_names))
        (λ _ transitions, (λ _, ChangeBool true) <$> transitions).


(** ** The invariant of the event loop *)

(** With an empty node list there are no rows, and the rows the table
    view shows are those of one state refresh that ran to its end. *)
Definition consistent (ros : Ros) (self : LifecycleManager) : Prop :=
  (_lc_node_names self = [] → _lc_nodes self = [] ∧ snapshot self = [])
  ∧ ∃ t names, refresh_loaded ros t names = true
               ∧ snapshot self = all_rows ros t names.

(** ** Further parts of the plugin *)

(** The window title set in [__init__]: every instance after the first
    gets [f"{title} {serial_number}"]. *)
Definition window_title (title : string) (serial_number : Z) : string :=
  if (1 <? serial_number)%Z then title +:+ " " +:+ pretty serial_number
  else title.

(** The events raised by the two timers, as opposed to the operator's
    request for a context menu. *)
Definition is_timeout (ev : event) : bool :=
  match ev with
  | update_node_list_timeout | update_nodes_state_timeout => true
  | customContextMenuRequested _ _ => false
  end.

(** The plugin and the table model installed, if any, hold the icons of
    [__init__]. *)
Definition model_installed (path : string) (self : LifecycleManager) : Prop :=
  _icons self = lc_state_icons path
  ∧ match _table_model self with
    | Some tbl => tbl_icons tbl = lc_state_icons path
    | None => True
    end.

(** The transition labels that the handler requests, in order, for an
    action of the menu. *)
Definition action_labels (a : QAction) : list string :=
  match a with
  | action_deactivate => ["deactivate"]
  | action_unspawn => ["deactivate"; "cleanup"]
  | action_shutdown => ["shutdown"]
  | action_activate => ["activate"]
  | action_cleanup => ["cleanup"]
  | action_configure => ["configure"]
  | action_spawn => ["configure"; "activate"]
  end.

(** A transition service that answers every request with success. *)
Definition ros_obliging : Ros :=
  mkRos (λ _, Nodes [node_a])
        (λ _, all_in_state "active")
        (λ _ transitions, (λ _, ChangeBool true) <$> transitions).

(** The plugin showing node [a] as active, after one listing. *)
Definition shown_active : LifecycleManager :=
  run ros_obliging [update_node_list_timeout] (__init__ "/share").

(** The answers received by one state refresh that starts at clock
    reading [t], one per listed node. *)
Fixpoint all_answers (ros : Ros) (t : nat) (names : list NodeName)
  : list (gmap string StateValue) :=
  match names with
  | [] => []
  | n :: names' => batch_answer ros t n :: all_answers ros (S t) names'
  end.


(** One node [a], active during the first refresh; afterwards the future
    of its state query holds neither a result nor an exception. *)
Definition ros_void : Ros :=
  mkRos (λ _, Nodes [node_a])
        (λ t node_names,
           if decide (t ≤ 1) then all_in_state "active" node_names
           else list_to_map ((λ n, (n, StateNone)) <$> node_names))
        (λ _ transitions, (λ _, ChangeBool true) <$> transitions).

(** Two nodes that share the bare name [talker] in different namespaces. *)
Definition node_left : NodeName := mkNodeName "talker" "/left" "/left/talker".
Definition node_right : NodeName := mkNodeName "talker" "/right" "/right/talker".

(** Two active nodes, always listed, always answering. *)
Definition ros_steady : Ros :=
  mkRos (λ _, Nodes [node_a; node_b])
        (λ _, all_in_state "active")
        (λ _ transitions, (λ _, ChangeBool true) <$> transitions).

(** A directory that fails with an exception other than [RuntimeError]. *)
Definition ros_broken : Ros :=
  mkRos (λ _, DiscoveryRaises (Exn OtherException "interrupted"))
        (λ _, all_in_state "active")
        (λ _ transitions, (λ _, ChangeBool true) <$> transitions).

(** * Properties *)

(** ** The monad and the Python primitives *)

Lemma bind_Ok {A B} (m : M A) (f : A → M B) self a self' :
  m self = (Ok a, self') → (m ≫= f) self = f a self'.
Proof. intros H. unfold mbind, M_bind. by rewrite H. Qed.

Lemma bind_Raise {A B} (m : M A) (f : A → M B) self e self' :
  m self = (Raise e, self') → (m ≫= f) self = (Raise e, self').
Proof. intros H. unfold mbind, M_bind. by rewrite H. Qed.

Lemma add_stderr_nil self : add_stderr [] self = self.
Proof. destruct self. unfold add_stderr. simpl. by rewrite app_nil_r. Qed.

Lemma add_stderr_app l1 l2 self :
  add_stderr l2 (add_stderr l1 self) = add_stderr (l1 ++ l2) self.
Proof. unfold add_stderr. simpl. by rewrite app_assoc. Qed.

Lemma add_lc_nodes_nil self : add_lc_nodes [] self = self.
Proof. destruct self. unfold add_lc_nodes. simpl. by rewrite app_nil_r. Qed.

Lemma add_lc_nodes_app l1 l2 self :
  add_lc_nodes l2 (add_lc_nodes l1 self) = add_lc_nodes (l1 ++ l2) self.
Proof. unfold add_lc_nodes. simpl. by rewrite app_assoc. Qed.

#[global] Instance str_le_total : Total str_le.
Proof. intros s1 s2. apply String.leb_total. Qed.

Lemma elem_of_sorted_keys {V} (d : gmap string V) k :
  k ∈ sorted_keys d ↔ is_Some (d !! k).
Proof.
  unfold sorted_keys. rewrite merge_sort_Permutation.
  rewrite list_elem_of_fmap. split.
  - intros [[k' v] [-> Hin]]. apply elem_of_map_to_list in Hin. by exists v.
  - intros [v Hv]. exists (k, v). split; [done|]. by apply elem_of_map_to_list.
Qed.

Lemma NoDup_sorted_keys {V} (d : gmap string V) : NoDup (sorted_keys d).
Proof.
  unfold sorted_keys. rewrite merge_sort_Permutation.
  apply NoDup_fst_map_to_list.
Qed.


(** ** The two inner loops of [_update_nodes_state] *)

Lemma loaded_spec (d : gmap string StateValue) :
  loaded d = true ↔ ∀ k, d !! k ≠ Some StateNone.
Proof.
  unfold loaded. rewrite bool_decide_eq_true. unfold map_Forall. split.
  - intros Hall k Hk. by apply (Hall k StateNone).
  - intros Hall k v Hk ->. by apply (Hall k).
Qed.

Lemma output_exceptions_loop ks (d : gmap string StateValue) self :
  NoDup ks → (∀ k, k ∈ ks → is_Some (d !! k)) →
  for_fold ks
    (λ node_name states,
       st ← dict_getitem states node_name;
       match st with
       | StateExc e =>
           print_stderr (exception_line node_name e) ;;
           mret (delete node_name states)
       | StateMsg _ | StateNone => mret states
       end) d self
  = (Ok (delete_exceptions ks d), add_stderr (exception_lines ks d) self).
Proof.
  intros Hnd. revert d self.
  induction Hnd as [|k ks Hk Hnd IH]; intros d self Hdom.
  - simpl. by rewrite add_stderr_nil.
  - destruct (Hdom k) as [v Hv]; [by left|].
    cbn [for_fold delete_exceptions exception_lines].
    unfold mbind at 1, M_bind at 1. unfold mbind at 1, M_bind at 1.
    unfold dict_getitem at 1. rewrite Hv. cbn [mret M_ret].
    destruct v as [label|e|].
    + apply IH. intros k' Hk'. apply Hdom. by right.
    + unfold mbind at 1, M_bind at 1. cbn [print_stderr mret M_ret].
      rewrite IH.
      * f_equal. unfold add_stderr. simpl. by rewrite <- app_assoc.
      * intros k' Hk'. rewrite lookup_delete_ne; [|by intros ->].
        apply Hdom. by right.
    + apply IH. intros k' Hk'. apply Hdom. by right.
Qed.

Lemma output_exceptions_spec (d : gmap string StateValue) self :
  output_exceptions d self
  = (Ok (delete_exceptions (sorted_keys d) d),
     add_stderr (exception_lines (sorted_keys d) d) self).
Proof.
  unfold output_exceptions. apply output_exceptions_loop.
  - apply NoDup_sorted_keys.
  - intros k. by rewrite elem_of_sorted_keys.
Qed.

Lemma delete_exceptions_lookup ks (d : gmap string StateValue) k :
  delete_exceptions ks d !! k
  = match d !! k with
    | Some (StateExc e) => if decide (k ∈ ks) then None else Some (StateExc e)
    | o => o
    end.
Proof.
  revert d. induction ks as [|k0 ks IH]; intros d.
  - simpl. by destruct (d !! k) as [[| |]|].
  - cbn [delete_exceptions]. rewrite IH. clear IH.
    destruct (decide (k = k0)) as [->|Hne].
    + destruct (d !! k0) as [[l|e|]|] eqn:Hk0; rewrite ?Hk0; try done.
      rewrite lookup_delete_eq. rewrite decide_True; [done|by left].
    + assert (Hlk : (match d !! k0 with
                     | Some (StateExc _) => delete k0 d
                     | _ => d
                     end) !! k = d !! k).
      { destruct (d !! k0) as [[| |]|]; try done. by rewrite lookup_delete_ne. }
      rewrite Hlk. destruct (d !! k) as [[l|e|]|]; try done.
      destruct (decide (k ∈ ks)) as [Hin|Hnin].
      * rewrite decide_True; [done|by right].
      * rewrite decide_False; [done|]. rewrite elem_of_cons. tauto.
Qed.

(** After the first loop the dictionary holds the entries of the answer
    that are not exception objects. *)
Lemma survivors_lookup (d : gmap string StateValue) k :
  delete_exceptions (sorted_keys d) d !! k
  = match d !! k with Some (StateExc _) => None | o => o end.
Proof.
  rewrite delete_exceptions_lookup.
  destruct (d !! k) as [[l|e|]|] eqn:Hk; try done.
  rewrite decide_True; [done|]. apply elem_of_sorted_keys. by rewrite Hk.
Qed.

Lemma loaded_survivors (d : gmap string StateValue) :
  loaded (delete_exceptions (sorted_keys d) d) = loaded d.
Proof.
  apply Bool.eq_true_iff_eq. rewrite !loaded_spec.
  split; intros Hall k Hk; apply (Hall k).
  - by rewrite survivors_lookup, Hk.
  - rewrite survivors_lookup in Hk. by destruct (d !! k) as [[| |]|].
Qed.

Lemma survivors_all_states (d : gmap string StateValue) k v :
  loaded d = true →
  delete_exceptions (sorted_keys d) d !! k = Some v → ∃ l, v = StateMsg l.
Proof.
  intros Hl. pose proof (proj1 (loaded_spec d) Hl) as Hall.
  rewrite survivors_lookup.
  destruct (d !! k) as [[l|e|]|] eqn:Hk; [|done| |done].
  - intros [= <-]. by exists l.
  - by destruct (Hall k).
Qed.

Lemma output_current_states_loop ks (d : gmap string StateValue) self :
  (∀ k, k ∈ ks → ∃ v, d !! k = Some v ∧ ∀ e, v ≠ StateExc e) →
  for_each ks
    (λ node_name,
       st ← dict_getitem d node_name;
       label ← state_label st;
       self ← get_self;
       set_lc_nodes (_lc_nodes self ++ [mkNodeState node_name label])) self
  = (if forallb (λ k, bool_decide (d !! k ≠ Some StateNone)) ks
     then Ok tt else Raise no_label,
     add_lc_nodes (rows_until_none ks d) self).
Proof.
  revert self. induction ks as [|k ks IH]; intros self Hdom.
  - simpl. by rewrite add_lc_nodes_nil.
  - destruct (Hdom k) as (v & Hv & Hne); [by left|].
    cbn [for_each forallb rows_until_none]. rewrite Hv.
    unfold mbind at 1, M_bind at 1. unfold mbind at 1, M_bind at 1.
    unfold dict_getitem at 1. rewrite Hv. cbn [mret M_ret].
    unfold mbind at 1, M_bind at 1.
    destruct v as [l|e|].
    + cbn [state_label mret M_ret].
      unfold mbind at 1, M_bind at 1. cbn [get_self set_lc_nodes].
      rewrite bool_decide_eq_true_2 by done. cbn [andb].
      rewrite IH.
      * f_equal. unfold add_lc_nodes. simpl. by rewrite <- app_assoc.
      * intros k' Hk'. apply Hdom. by right.
    + by destruct (Hne e).
    + cbn [state_label raise].
      rewrite bool_decide_eq_false_2 by (by intros []). cbn [andb].
      by rewrite add_lc_nodes_nil.
Qed.

Lemma forallb_sorted_keys (d : gmap string StateValue) :
  forallb (λ k, bool_decide (d !! k ≠ Some StateNone)) (sorted_keys d)
  = loaded d.
Proof.
  apply Bool.eq_true_iff_eq. rewrite forallb_forall, loaded_spec. split.
  - intros Hall k Hk.
    assert (Hin : k ∈ sorted_keys d) by (apply elem_of_sorted_keys; by rewrite Hk).
    apply list_elem_of_In, Hall, bool_decide_eq_true in Hin. done.
  - intros Hall k _. by apply bool_decide_eq_true.
Qed.

Lemma output_current_states_spec (d : gmap string StateValue) self :
  (∀ k e, d !! k ≠ Some (StateExc e)) →
  output_current_states d self
  = (if loaded d then Ok tt else Raise no_label,
     add_lc_nodes (rows_until_none (sorted_keys d) d) self).
Proof.
  intros Hne. unfold output_current_states.
  rewrite output_current_states_loop, forallb_sorted_keys; [done|].
  intros k [v Hv]%elem_of_sorted_keys. exists v. split; [done|].
  intros e ->. by apply (Hne k e).
Qed.

Lemma rows_until_none_states ks (d : gmap string StateValue) :
  (∀ k, k ∈ ks → ∃ l, d !! k = Some (StateMsg l)) →
  rows_until_none ks d = rows_of ks d.
Proof.
  induction ks as [|k ks IH]; intros Hmsg; [done|].
  destruct (Hmsg k) as [l Hl]; [by left|].
  unfold rows_of. simpl. rewrite Hl. f_equal.
  apply IH. intros k' Hk'. apply Hmsg. by right.
Qed.

Lemma elem_of_rows_of ks (d : gmap string StateValue) r :
  r ∈ rows_of ks d ↔ name r ∈ ks ∧ d !! name r = Some (StateMsg (state r)).
Proof.
  unfold rows_of. rewrite list_elem_of_omap. split.
  - intros (k & Hk & Hr). destruct (d !! k) as [[l|e|]|] eqn:Hd; [|done..].
    injection Hr as <-. simpl. by rewrite Hd.
  - intros [Hk Hd]. exists (name r). split; [done|]. rewrite Hd. by destruct r.
Qed.

Lemma rows_of_names ks (d : gmap string StateValue) :
  (∀ k, k ∈ ks → ∃ l, d !! k = Some (StateMsg l)) →
  name <$> rows_of ks d = ks.
Proof.
  induction ks as [|k ks IH]; intros Hmsg; [done|].
  destruct (Hmsg k) as [l Hl]; [by left|].
  unfold rows_of. simpl omap. rewrite Hl. simpl. f_equal.
  apply IH. intros k' Hk'. apply Hmsg. by right.
Qed.

(** ** One query batch *)

Section Batch.

Variable ros : Ros.

(** A batch holds one row for each entry of the answer that is a state,
    and nothing else. *)
Lemma elem_of_batch_rows t lc_node r :
  r ∈ batch_rows ros t lc_node
  ↔ batch_answer ros t lc_node !! name r = Some (StateMsg (state r)).
Proof.
  unfold batch_rows, batch_survivors. rewrite elem_of_rows_of.
  rewrite elem_of_sorted_keys, survivors_lookup.
  destruct (batch_answer ros t lc_node !! name r) as [[l|e|]|]; split;
    try done; by intros [_ ?].
Qed.

Lemma batch_survivors_states t lc_node k :
  loaded (batch_answer ros t lc_node) = true →
  k ∈ sorted_keys (batch_survivors ros t lc_node) →
  ∃ l, batch_survivors ros t lc_node !! k = Some (StateMsg l).
Proof.
  intros Hl [v Hv]%elem_of_sorted_keys.
  destruct (survivors_all_states _ _ _ Hl Hv) as [l ->]. by exists l.
Qed.

Lemma batch_rows_names t lc_node :
  loaded (batch_answer ros t lc_node) = true →
  name <$> batch_rows ros t lc_node
  = sorted_keys (batch_survivors ros t lc_node).
Proof.
  intros Hl. unfold batch_rows. apply rows_of_names.
  intros k. by apply batch_survivors_states.
Qed.


Lemma batch_rows_NoDup t lc_node :
  loaded (batch_answer ros t lc_node) = true →
  NoDup (name <$> batch_rows ros t lc_node).
Proof. intros Hl. rewrite batch_rows_names by done. apply NoDup_sorted_keys. Qed.

Lemma batch_partial_rows_loaded t lc_node :
  loaded (batch_answer ros t lc_node) = true →
  batch_partial_rows ros t lc_node = batch_rows ros t lc_node.
Proof.
  intros Hl. unfold batch_partial_rows, batch_rows.
  apply rows_until_none_states. intros k. by apply batch_survivors_states.
Qed.

(** The body of the outer loop of [_update_nodes_state]. *)
Lemma batch_spec lc_node self :
  (states ← ros_call_get_states ros [nn_name lc_node];
   states ← output_exceptions states;
   output_current_states states) self
  = (if loaded (batch_answer ros (clock self) lc_node)
     then Ok tt else Raise no_label,
     mkPlugin (_lc_node_names self)
       (_lc_nodes self ++ batch_partial_rows ros (clock self) lc_node)
       (_table_model self) (_icons self) (S (clock self))
       (calls self ++ [GetStates [nn_name lc_node]])
       (stdout self)
       (stderr self ++ batch_lines ros (clock self) lc_node)).
Proof.
  unfold mbind at 1, M_bind at 1.
  unfold ros_call_get_states, invoke. unfold mbind at 1, M_bind at 1.
  cbn [mret M_ret clock].
  unfold mbind at 1, M_bind at 1. rewrite output_exceptions_spec.
  rewrite output_current_states_spec.
  - rewrite loaded_survivors. reflexivity.
  - intros k e. rewrite survivors_lookup.
    by destruct (call_get_states ros (clock self) [nn_name lc_node] !! k)
      as [[| |]|].
Qed.

Lemma update_loop_spec names self :
  for_each names
    (λ lc_node,
       states ← ros_call_get_states ros [nn_name lc_node];
       states ← output_exceptions states;
       output_current_states states) self
  = (if refresh_loaded ros (clock self) names then Ok tt else Raise no_label,
     mkPlugin (_lc_node_names self)
       (_lc_nodes self ++ gathered_rows ros (clock self) names)
       (_table_model self) (_icons self)
       (clock self + queried ros (clock self) names)
       (calls self
          ++ ((λ n, GetStates [nn_name n])
                <$> take (queried ros (clock self) names) names))
       (stdout self)
       (stderr self
          ++ all_lines ros (clock self)
               (take (queried ros (clock self) names) names))).
Proof.
  revert self. induction names as [|n names IH]; intros self.
  - destruct self. simpl. rewrite !app_nil_r, Nat.add_0_r. reflexivity.
  - cbn [for_each refresh_loaded queried gathered_rows].
    unfold mbind at 1, M_bind at 1. rewrite batch_spec.
    destruct (loaded (batch_answer ros (clock self) n)) eqn:Hl.
    + rewrite IH. rewrite (batch_partial_rows_loaded _ _ Hl).
      cbn [andb take fmap list_fmap all_lines clock _lc_nodes _lc_node_names
           _table_model _icons calls stdout stderr].
      f_equal. f_equal.
      * by rewrite <- app_assoc.
      * lia.
      * by rewrite <- app_assoc.
      * by rewrite <- app_assoc.
    + cbn [andb take fmap list_fmap all_lines]. rewrite app_nil_r.
      f_equal. f_equal. lia.
Qed.

Lemma refresh_loaded_lookup t names i lc_node :
  refresh_loaded ros t names = true → names !! i = Some lc_node →
  loaded (batch_answer ros (t + i) lc_node) = true.
Proof.
  revert t i. induction names as [|n names IH]; intros t i Hl Hi; [done|].
  cbn [refresh_loaded] in Hl. apply andb_prop in Hl as [Hn Hl].
  destruct i as [|i].
  - injection Hi as <-. by rewrite Nat.add_0_r.
  - replace (t + S i) with (S t + i) by lia. by apply IH.
Qed.

Lemma refresh_loaded_intro t names :
  (∀ i lc_node, names !! i = Some lc_node →
                loaded (batch_answer ros (t + i) lc_node) = true) →
  refresh_loaded ros t names = true.
Proof.
  revert t. induction names as [|n names IH]; intros t Hall; [done|].
  cbn [refresh_loaded]. apply andb_true_intro. split.
  - specialize (Hall 0 n eq_refl). by rewrite Nat.add_0_r in Hall.
  - apply IH. intros i lc_node Hi.
    replace (S t + i) with (t + S i) by lia. by apply (Hall (S i)).
Qed.

Lemma queried_loaded t names :
  refresh_loaded ros t names = true → queried ros t names = length names.
Proof.
  revert t. induction names as [|n names IH]; intros t Hl; [done|].
  cbn [refresh_loaded] in Hl. apply andb_prop in Hl as [Hn Hl].
  cbn [queried]. rewrite Hn. simpl. by rewrite IH.
Qed.

Lemma gathered_rows_loaded t names :
  refresh_loaded ros t names = true →
  gathered_rows ros t names = all_rows ros t names.
Proof.
  revert t. induction names as [|n names IH]; intros t Hl; [done|].
  cbn [refresh_loaded] in Hl. apply andb_prop in Hl as [Hn Hl].
  cbn [gathered_rows all_rows]. rewrite Hn. by rewrite IH.
Qed.

(** The first answer that holds [None] is the last one read. *)
Lemma queried_interrupted t names :
  refresh_loaded ros t names = false →
  ∃ i lc_node,
    queried ros t names = S i
    ∧ names !! i = Some lc_node
    ∧ loaded (batch_answer ros (t + i) lc_node) = false
    ∧ refresh_loaded ros t (take i names) = true.
Proof.
  revert t. induction names as [|n names IH]; intros t Hl; [done|].
  cbn [refresh_loaded queried] in *.
  destruct (loaded (batch_answer ros t n)) eqn:Hn.
  - destruct (IH (S t) Hl) as (i & lc_node & Hq & Hi & Hnone & Hpre).
    exists (S i), lc_node. rewrite Hq.
    replace (t + S i) with (S t + i) by lia.
    split; [done|]. split; [done|]. split; [done|].
    cbn [take refresh_loaded]. by rewrite Hn, Hpre.
  - exists 0, n. rewrite Nat.add_0_r. by repeat split.
Qed.

(** [_update_nodes_state] in closed form. *)
Lemma _update_nodes_state_spec self :
  _update_nodes_state ros self = refresh_outcome ros self.
Proof.
  unfold _update_nodes_state, refresh_outcome.
  unfold mbind at 1, M_bind at 1. cbn [set_lc_nodes].
  unfold mbind at 1, M_bind at 1. cbn [get_self].
  unfold mbind at 1, M_bind at 1. cbn [_lc_node_names].
  rewrite update_loop_spec. cbn [clock _lc_nodes app].
  destruct (refresh_loaded ros (clock self) (_lc_node_names self)) eqn:Hl.
  - rewrite (queried_loaded _ _ Hl), (gathered_rows_loaded _ _ Hl).
    rewrite firstn_all. reflexivity.
  - reflexivity.
Qed.

(** When no answer holds [None], [_update_nodes_state] returns and leaves
    the plugin as [refreshed] describes. *)
Lemma _update_nodes_state_loaded self :
  refresh_loaded ros (clock self) (_lc_node_names self) = true →
  _update_nodes_state ros self = (Ok tt, refreshed ros self).
Proof.
  intros Hl. rewrite _update_nodes_state_spec. unfold refresh_outcome.
  by rewrite Hl.
Qed.

Lemma refresh_outcome_view self :
  let post := (refresh_outcome ros self).2 in
  _lc_node_names post = _lc_node_names self
  ∧ _icons post = _icons self
  ∧ stdout post = stdout self
  ∧ (∃ q, q ≤ length (_lc_node_names self)
          ∧ calls post
            = calls self
              ++ ((λ n, GetStates [nn_name n]) <$> take q (_lc_node_names self))
          ∧ clock post = clock self + q
          ∧ stderr post
            = stderr self ++ all_lines ros (clock self)
                               (take q (_lc_node_names self))).
Proof.
  cbv zeta. unfold refresh_outcome.
  destruct (refresh_loaded ros (clock self) (_lc_node_names self)) eqn:Hl;
    cbn [snd refreshed interrupted _lc_node_names _icons stdout calls clock
         stderr]; (split; [done|]); (split; [done|]); (split; [done|]).
  - exists (length (_lc_node_names self)). by rewrite firstn_all.
  - destruct (queried_interrupted _ _ Hl) as (i & lc_node & Hq & Hi & _).
    exists (queried ros (clock self) (_lc_node_names self)).
    split; [|done]. rewrite Hq. by apply lookup_lt_Some in Hi.
Qed.

End Batch.

(** ** Transition calls and the context menu *)

Section Transitions.

Variable ros : Ros.

Lemma _call_transition_spec node_name label self :
  _call_transition ros node_name label self
  = let self' := invoked (ChangeStates {[ node_name := label ]}) self in
    match call_change_states ros (clock self) {[ node_name := label ]}
            !! node_name with
    | None => (Raise (Exn KeyError node_name), self')
    | Some (ChangeExc e) =>
        print_stderr (exception_line node_name e) self'
    | Some (ChangeBool true) => print "Transitioning successful" self'
    | Some _ => print_stderr "Transitioning failed" self'
    end.
Proof.
  unfold _call_transition, ros_call_change_states.
  unfold mbind, M_bind, invoke, dict_getitem. cbn [mret M_ret].
  destruct (call_change_states ros (clock self) {[node_name := label]}
              !! node_name) as [[[|]| |e]|]; reflexivity.
Qed.

Lemma _call_transition_result node_name label self :
  (_call_transition ros node_name label self).1
  = match call_change_states ros (clock self) {[ node_name := label ]}
            !! node_name with
    | Some _ => Ok tt
    | None => Raise (Exn KeyError node_name)
    end.
Proof.
  rewrite _call_transition_spec. cbv zeta.
  by destruct (call_change_states ros (clock self) {[node_name := label]}
                 !! node_name) as [[[|]| |e]|].
Qed.

Lemma _call_transition_effect node_name label self :
  let self' := (_call_transition ros node_name label self).2 in
  calls self' = calls self ++ [ChangeStates {[ node_name := label ]}]
  ∧ clock self' = S (clock self)
  ∧ view self' = view self.
Proof.
  rewrite _call_transition_spec. cbv zeta.
  by destruct (call_change_states ros (clock self) {[node_name := label]}
                 !! node_name) as [[[|]| |e]|].
Qed.

Lemma _call_transition_full node_name label self :
  let o := call_change_states ros (clock self) {[ node_name := label ]}
             !! node_name in
  let r := _call_transition ros node_name label self in
  r.1 = match o with
        | Some _ => Ok tt
        | None => Raise (Exn KeyError node_name)
        end
  ∧ calls r.2 = calls self ++ [ChangeStates {[ node_name := label ]}]
  ∧ clock r.2 = S (clock self)
  ∧ stdout r.2 = stdout self ++ stdout_lines node_name o
  ∧ stderr r.2 = stderr self ++ stderr_lines node_name o
  ∧ view r.2 = view self.
Proof.
  cbv zeta. rewrite _call_transition_spec. cbv zeta.
  destruct (call_change_states ros (clock self) {[node_name := label]}
              !! node_name) as [[[|]| |e]|]; simpl; rewrite ?app_nil_r; done.
Qed.

(** Building the menu reads the icon table and changes nothing. *)
Lemma addAction_state menu key text a self :
  (addAction menu key text a self).2 = self.
Proof.
  unfold addAction, mbind, M_bind, get_self, dict_getitem.
  by destruct (_icons self !! key).
Qed.

Lemma build_menu_state lc_node self : (build_menu lc_node self).2 = self.
Proof.
  assert (Hseq : ∀ (m : M (list MenuEntry)) (f : list MenuEntry → M (list MenuEntry)) s,
             (m s).2 = s → (∀ x s', (f x s').2 = s') → ((m ≫= f) s).2 = s).
  { intros m f s Hm Hf. unfold mbind, M_bind.
    destruct (m s) as [[x|e] s'] eqn:E; simpl in Hm; subst s'; [apply Hf|done]. }
  unfold build_menu.
  repeat case_decide; try done;
    repeat (apply Hseq; [|intros; try apply addAction_state]);
    apply addAction_state.
Qed.

Lemma build_menu_entries path lc_node self :
  _icons self = lc_state_icons path →
  build_menu lc_node self = (Ok (menu_entries path (state lc_node)), self).
Proof.
  intros Hicons. destruct self as [nms rows tm ics t cs out err].
  simpl in Hicons. subst ics. unfold build_menu, menu_entries.
  repeat case_decide; reflexivity.
Qed.

End Transitions.

(** ** Claims about transition requests *)

Section TransitionClaims.

Variable ros : Ros.

Lemma two_transitions node_name l1 l2 self :
  is_Some (call_change_states ros (clock self) {[ node_name := l1 ]}
             !! node_name) →
  calls ((_call_transition ros node_name l1 ;;
          _call_transition ros node_name l2) self).2
  = calls self ++ [ChangeStates {[ node_name := l1 ]};
                   ChangeStates {[ node_name := l2 ]}].
Proof.
  intros [v Hv].
  pose proof (_call_transition_result ros node_name l1 self) as Hres.
  pose proof (_call_transition_effect ros node_name l1 self) as (Hc & _ & _).
  rewrite Hv in Hres. unfold mbind, M_bind.
  destruct (_call_transition ros node_name l1 self) as [r self1].
  simpl in Hres, Hc. subst r.
  pose proof (_call_transition_effect ros node_name l2 self1) as (Hc2 & _ & _).
  simpl in Hc2. rewrite Hc2, Hc, <- app_assoc. reflexivity.
Qed.

Lemma _on_lc_node_menu_row row exec_ self lc_node :
  (0 ≤ row)%Z → py_index (_lc_nodes self) row = Some lc_node →
  _on_lc_node_menu ros row exec_ self
  = (menu ← build_menu lc_node; evaluate_action ros lc_node (exec_ menu)) self.
Proof.
  intros Hrow Hidx. unfold _on_lc_node_menu.
  apply Z.ltb_ge in Hrow. rewrite Hrow.
  unfold mbind at 1, M_bind at 1. cbn [get_self].
  unfold mbind at 1, M_bind at 1. unfold list_getitem. rewrite Hidx.
  reflexivity.
Qed.

Lemma transition_requests_app cs1 cs2 :
  transition_requests (cs1 ++ cs2)
  = transition_requests cs1 ++ transition_requests cs2.
Proof. unfold transition_requests. apply bind_app. Qed.

Lemma transition_requests_one node_name label :
  transition_requests [ChangeStates {[ node_name := label ]}]
  = [(node_name, label)].
Proof.
  unfold transition_requests. simpl.
  by rewrite map_to_list_singleton, app_nil_r.
Qed.

End TransitionClaims.

(** On an unconfigured row, [Configure and Activate] invokes the service
    twice whenever the first answer holds an entry for the node; each
    answer is printed and nothing else is kept of it. *)
Lemma spawn_issues_both
    (ros : Ros) (path : string) (self : LifecycleManager) (row : Z)
    (exec_ : list MenuEntry → option QAction) (lc_node : NodeState)
    (v : ChangeValue) :
  _icons self = lc_state_icons path →
  (0 ≤ row)%Z →
  py_index (_lc_nodes self) row = Some lc_node →
  state lc_node = "unconfigured" →
  exec_ (menu_entries path "unconfigured") = Some action_spawn →
  call_change_states ros (clock self) {[ name lc_node := "configure" ]}
    !! name lc_node = Some v →
  let r := _on_lc_node_menu ros row exec_ self in
  let second := call_change_states ros (S (clock self))
                  {[ name lc_node := "activate" ]} !! name lc_node in
  calls r.2
  = calls self ++ [ChangeStates {[ name lc_node := "configure" ]};
                   ChangeStates {[ name lc_node := "activate" ]}]
  ∧ transition_requests (calls r.2)
    = transition_requests (calls self)
      ++ [(name lc_node, "configure"); (name lc_node, "activate")]
  ∧ stderr r.2
    = stderr self ++ stderr_lines (name lc_node) (Some v)
        ++ stderr_lines (name lc_node) second
  ∧ stdout r.2
    = stdout self ++ stdout_lines (name lc_node) (Some v)
        ++ stdout_lines (name lc_node) second
  ∧ r.1 = match second with
          | Some _ => Ok tt
          | None => Raise (Exn KeyError (name lc_node))
          end
  ∧ view r.2 = view self.
Proof.
  intros Hicons Hrow Hidx Hst Hexec Hv. cbv zeta.
  assert (Heq : _on_lc_node_menu ros row exec_ self
                = (_call_transition ros (name lc_node) "configure" ;;
                   _call_transition ros (name lc_node) "activate") self).
  { rewrite (_on_lc_node_menu_row ros row exec_ self lc_node Hrow Hidx).
    unfold mbind at 1, M_bind at 1.
    rewrite (build_menu_entries path lc_node self Hicons). cbn beta iota.
    rewrite Hst, Hexec. unfold evaluate_action. rewrite Hst.
    by repeat case_decide. }
  rewrite Heq. clear Heq.
  pose proof (_call_transition_full ros (name lc_node) "configure" self)
    as (Hr1 & Hc1 & Ht1 & Ho1 & He1 & Hv1).
  rewrite Hv in Hr1, Ho1, He1. unfold mbind, M_bind.
  destruct (_call_transition ros (name lc_node) "configure" self)
    as [r1 self1]. simpl in Hr1, Hc1, Ht1, Ho1, He1, Hv1. subst r1.
  cbn beta iota.
  pose proof (_call_transition_full ros (name lc_node) "activate" self1)
    as (Hr2 & Hc2 & _ & Ho2 & He2 & Hv2).
  rewrite Ht1 in Hr2, Ho2, He2.
  assert (Hcalls : calls (_call_transition ros (name lc_node) "activate"
                            self1).2
                   = calls self
                     ++ [ChangeStates {[ name lc_node := "configure" ]};
                         ChangeStates {[ name lc_node := "activate" ]}]).
  { by rewrite Hc2, Hc1, <- app_assoc. }
  split; [done|]. split.
  { rewrite Hcalls, transition_requests_app. f_equal.
    change [ChangeStates {[name lc_node := "configure"]};
            ChangeStates {[name lc_node := "activate"]}]
      with ([ChangeStates {[name lc_node := "configure"]}]
            ++ [ChangeStates {[name lc_node := "activate"]}]).
    by rewrite transition_requests_app, !transition_requests_one. }
  split; [by rewrite He2, He1, <- app_assoc|].
  split; [by rewrite Ho2, Ho1, <- app_assoc|].
  split; [done|]. congruence.
Qed.

(** C1 fails on the code: the answer to [configure] is a refusal and the
    service is nevertheless invoked a second time, for [activate]. *)
Lemma sequential_abort_counterexample :
  let self := shown_unconfigured in
  let post := (_on_lc_node_menu ros_refusing 0 (λ _, Some action_spawn) self).2 in
  snapshot self = [mkNodeState "a" "unconfigured"]
  ∧ call_change_states ros_refusing (clock self) {[ "a" := "configure" ]} !! "a"
    = Some (ChangeBool false)
  ∧ transition_requests (calls post) = [("a", "configure"); ("a", "activate")]
  ∧ length (transition_requests (calls post)) ≠ 1
  ∧ stderr post = ["Transitioning failed"; "Transitioning failed"].
Proof. vm_compute. repeat split; discriminate. Qed.




(** C6, as the code has it: whenever the mapping returned by the
    transition service holds an entry for the requested node, be it a
    flag, [None] or an exception object, the handler returns normally and
    prints exactly one line; and whenever the mapping lacks the requested
    node, [KeyError] leaves the handler and nothing is printed. *)
Theorem _call_transition_returns
    (ros : Ros) (node_name label : string) (self : LifecycleManager) :
  let r := _call_transition ros node_name label self in
  match call_change_states ros (clock self) {[ node_name := label ]}
          !! node_name with
  | Some v =>
      r.1 = Ok tt
      ∧ length (stdout r.2) + length (stderr r.2)
        = S (length (stdout self) + length (stderr self))
  | None =>
      r.1 = Raise (Exn KeyError node_name)
      ∧ stdout r.2 = stdout self
      ∧ stderr r.2 = stderr self
  end.
Proof.
  cbv zeta. rewrite _call_transition_spec. cbv zeta.
  destruct (call_change_states ros (clock self) {[node_name := label]}
              !! node_name) as [[[|]| |e]|]; simpl;
    rewrite ?length_app; simpl; (split; [done|]); first [lia | done].
Qed.

Lemma _call_transition_returns_witness :
  (_call_transition ros_refusing "a" "configure" shown_unconfigured).1 = Ok tt
  ∧ length (stdout (_call_transition ros_refusing "a" "configure"
                      shown_unconfigured).2)
    + length (stderr (_call_transition ros_refusing "a" "configure"
                        shown_unconfigured).2)
    = S (length (stdout shown_unconfigured)
         + length (stderr shown_unconfigured)).
Proof.
  exact (_call_transition_returns ros_refusing "a" "configure"
           shown_unconfigured).
Defined.

(** C6 fails on the code: when the requested node is absent from the
    mapping, [results[node_name]] raises [KeyError] out of the handler. *)
Lemma absent_response_counterexample :
  call_change_states ros_silent 0 {[ "a" := "configure" ]} !! "a" = None
  ∧ (_call_transition ros_silent "a" "configure" (__init__ "/share")).1
    = Raise (Exn KeyError "a").
Proof. vm_compute. split; reflexivity. Qed.

(** The handler does nothing when no row is hit, when the menu is
    dismissed, and when the row's state offers no action. *)
Lemma inert_menu
    (ros : Ros) (path : string) (self : LifecycleManager) (row : Z)
    (exec_ : list MenuEntry → option QAction) :
  _icons self = lc_state_icons path →
  ((row < 0)%Z
   ∨ ∃ lc_node,
       py_index (_lc_nodes self) row = Some lc_node
       ∧ (exec_ (menu_entries path (state lc_node)) = None
          ∨ (state lc_node ≠ "active" ∧ state lc_node ≠ "inactive"
             ∧ state lc_node ≠ "unconfigured"))) →
  _on_lc_node_menu ros row exec_ self = (Ok tt, self).
Proof.
  intros Hicons Hcase.
  destruct (Z.ltb_spec row 0) as [Hneg|Hrow].
  { unfold _on_lc_node_menu. apply Z.ltb_lt in Hneg. by rewrite Hneg. }
  destruct Hcase as [Hneg|(lc_node & Hidx & Hcase)]; [lia|].
  rewrite (_on_lc_node_menu_row ros row exec_ self lc_node Hrow Hidx).
  unfold mbind at 1, M_bind at 1.
  rewrite (build_menu_entries path lc_node self Hicons). cbn beta iota.
  unfold evaluate_action.
  destruct Hcase as [Hnone|(Ha & Hi & Hu)].
  - rewrite Hnone. by repeat case_decide.
  - by rewrite !decide_False.
Qed.

(** ** The table model *)

Lemma lc_state_icons_lookup path key :
  lc_state_icons path !! key
  = if decide (key = "unconfigured")
    then Some (mkQIcon (path +:+ "/resource/led_off.png"))
    else if decide (key = "inactive")
    then Some (mkQIcon (path +:+ "/resource/led_red.png"))
    else if decide (key = "finalized")
    then Some (mkQIcon (path +:+ "/resource/led_off.png"))
    else if decide (key = "active")
    then Some (mkQIcon (path +:+ "/resource/led_green.png"))
    else None.
Proof.
  unfold lc_state_icons. rewrite !lookup_insert, lookup_empty.
  repeat case_decide; congruence.
Qed.

(** C7, as the code has it: column 0 displays the node name in bold and
    is decorated with the icon found under the row's state, which exists
    for [active], [inactive], [unconfigured] and [finalized] and for no
    other state; column 1 displays the state label centered, and the text
    [not loaded] in place of an empty label. *)
Theorem table_row_rendering
    (path : string) (rows : list NodeState) (r : Z) (lc_node : NodeState) :
  py_index rows r = Some lc_node →
  let tbl := mkTable rows (lc_state_icons path) in
  let cell := λ c role, LifecycleNodeTable.data tbl (mkIndex true r c) role in
  let led := λ file, PyIcon (mkQIcon (path +:+ file)) in
  cell 0%Z DisplayRole = Ok (PyStr (name lc_node))
  ∧ cell 0%Z FontRole = Ok PyBoldFont
  ∧ cell 0%Z DecorationRole
    = Ok (if decide (state lc_node = "active") then led "/resource/led_green.png"
          else if decide (state lc_node = "inactive") then led "/resource/led_red.png"
          else if decide (state lc_node = "unconfigured") then led "/resource/led_off.png"
          else if decide (state lc_node = "finalized") then led "/resource/led_off.png"
          else PyNone)
  ∧ cell 1%Z DisplayRole
    = Ok (PyStr (if decide (state lc_node = "") then "not loaded"
                 else state lc_node))
  ∧ cell 1%Z TextAlignmentRole = Ok PyAlignCenter.
Proof.
  intros Hidx. cbv zeta. unfold LifecycleNodeTable.data.
  cbn [isValid row column _data tbl_icons negb]. rewrite Hidx.
  repeat split; try reflexivity.
  cbn [bool_decide andb Z.eqb]. unfold LifecycleNodeTable.icons_get.
  rewrite lc_state_icons_lookup.
  repeat case_decide; first [congruence | reflexivity].
Qed.

Lemma table_row_rendering_witness :
  LifecycleNodeTable.data
    (mkTable [mkNodeState "a" ""] (lc_state_icons "/share"))
    (mkIndex true 0 1) DisplayRole
  = Ok (PyStr "not loaded").
Proof.
  apply (table_row_rendering "/share" [mkNodeState "a" ""] 0
           (mkNodeState "a" "")).
  reflexivity.
Defined.

(** C7 fails on the code: the icon table has no entry for a state
    [unknown], nor for the empty label that is displayed as [not loaded];
    such rows are decorated with nothing. *)
Lemma unknown_icon_counterexample :
  let tbl := mkTable [mkNodeState "a" "unknown"; mkNodeState "b" ""]
               (lc_state_icons "/share") in
  LifecycleNodeTable.data tbl (mkIndex true 0 0) DecorationRole = Ok PyNone
  ∧ LifecycleNodeTable.data tbl (mkIndex true 1 0) DecorationRole = Ok PyNone
  ∧ lc_state_icons "/share" !! "unknown" = None.
Proof. vm_compute. repeat split. Qed.

(** ** Listing, refreshing and the invariant *)

Section Polling.

Variable ros : Ros.

Lemma _list_lc_nodes_spec self :
  _list_lc_nodes ros self
  = match get_node_names ros (clock self) with
    | Nodes l => (Ok l, invoked ListNodes self)
    | DiscoveryRaises e =>
        if is_RuntimeError e
        then (Ok [], (print (exn_text e) (invoked ListNodes self)).2)
        else (Raise e, invoked ListNodes self)
    end.
Proof.
  unfold _list_lc_nodes, try_except_RuntimeError, ros_get_node_names.
  unfold mbind, M_bind, invoke. cbn [mret M_ret].
  destruct (get_node_names ros (clock self)) as [l|e]; [reflexivity|].
  unfold raise. by destruct (is_RuntimeError e).
Qed.

Lemma _update_node_list_spec self :
  _update_node_list ros self
  = match _list_lc_nodes ros self with
    | (Ok l, self1) =>
        if decide (_lc_node_names self1 ≠ l)
        then refresh_outcome ros (set_lc_node_names l self1).2
        else (Ok tt, self1)
    | (Raise e, self1) => (Raise e, self1)
    end.
Proof.
  unfold _update_node_list. unfold mbind at 1, M_bind at 1.
  destruct (_list_lc_nodes ros self) as [[l|e] self1]; [|reflexivity].
  unfold mbind at 1, M_bind at 1. cbn [get_self].
  destruct (decide (_lc_node_names self1 ≠ l)); [|reflexivity].
  unfold mbind at 1, M_bind at 1. cbn [set_lc_node_names].
  apply _update_nodes_state_spec.
Qed.

Lemma _list_lc_nodes_view self :
  view (_list_lc_nodes ros self).2 = view self.
Proof.
  rewrite _list_lc_nodes_spec.
  destruct (get_node_names ros (clock self)) as [l|e]; [reflexivity|].
  by destruct (is_RuntimeError e).
Qed.

Lemma elem_of_all_rows t names r :
  r ∈ all_rows ros t names
  ↔ ∃ i lc_node, names !! i = Some lc_node
                 ∧ batch_answer ros (t + i) lc_node !! name r
                   = Some (StateMsg (state r)).
Proof.
  revert t. induction names as [|n names IH]; intros t.
  - simpl. split; [by intros ?%elem_of_nil|by intros (i & ? & ? & _)].
  - cbn [all_rows]. rewrite elem_of_app, elem_of_batch_rows, IH. split.
    + intros [Hr|(i & lc_node & Hi & Hr)].
      * exists 0, n. by rewrite Nat.add_0_r.
      * exists (S i), lc_node. split; [done|].
        by replace (t + S i) with (S t + i) by lia.
    + intros ([|i] & lc_node & Hi & Hr).
      * left. simpl in Hi. injection Hi as ->. by rewrite Nat.add_0_r in Hr.
      * right. exists i, lc_node. split; [done|].
        by replace (S t + i) with (t + S i) by lia.
Qed.

Lemma elem_of_all_lines t names line :
  line ∈ all_lines ros t names
  ↔ ∃ i lc_node, names !! i = Some lc_node
                 ∧ line ∈ batch_lines ros (t + i) lc_node.
Proof.
  revert t. induction names as [|n names IH]; intros t.
  - simpl. split; [by intros ?%elem_of_nil|by intros (i & ? & ? & _)].
  - cbn [all_lines]. rewrite elem_of_app, IH. split.
    + intros [Hr|(i & lc_node & Hi & Hr)].
      * exists 0, n. by rewrite Nat.add_0_r.
      * exists (S i), lc_node. split; [done|].
        by replace (t + S i) with (S t + i) by lia.
    + intros ([|i] & lc_node & Hi & Hr).
      * left. simpl in Hi. injection Hi as ->. by rewrite Nat.add_0_r in Hr.
      * right. exists i, lc_node. split; [done|].
        by replace (S t + i) with (t + S i) by lia.
Qed.

Lemma elem_of_exception_lines ks (d : gmap string StateValue) k e :
  NoDup ks → k ∈ ks → d !! k = Some (StateExc e) →
  exception_line k e ∈ exception_lines ks d.
Proof.
  intros Hnd. revert d.
  induction Hnd as [|k0 ks Hk0 Hnd IH]; intros d Hin Hd.
  - by apply elem_of_nil in Hin.
  - cbn [exception_lines]. apply elem_of_cons in Hin as [->|Hin].
    + rewrite Hd. by left.
    + assert (k ≠ k0) by (by intros ->).
      destruct (d !! k0) as [[l|e0|]|] eqn:Hd0; try by apply IH.
      right. apply IH; [done|]. by rewrite lookup_delete_ne.
Qed.

(** ** The invariant *)

Lemma consistent_init path : consistent ros (__init__ path).
Proof. split; [done|]. by exists 0, []. Qed.

(** Whatever was shown before, a state refresh leaves a consistent
    plugin: it installs the rows of a refresh that ran to its end, or it
    leaves the table alone. *)
Lemma consistent_refresh_outcome self :
  (∃ t names, refresh_loaded ros t names = true
              ∧ snapshot self = all_rows ros t names) →
  consistent ros (refresh_outcome ros self).2.
Proof.
  intros Hshown. unfold refresh_outcome.
  destruct (refresh_loaded ros (clock self) (_lc_node_names self)) eqn:Hl;
    cbn [snd]; split.
  - cbn [refreshed _lc_node_names _lc_nodes]. intros Hn.
    unfold snapshot. cbn [refreshed _table_model _data]. by rewrite Hn.
  - by exists (clock self), (_lc_node_names self).
  - cbn [interrupted _lc_node_names]. intros Hn. by rewrite Hn in Hl.
  - done.
Qed.

Lemma consistent_view self self' :
  view self' = view self → consistent ros self → consistent ros self'.
Proof.
  unfold view, consistent, snapshot.
  intros [= Hn Hr Ht _]. by rewrite Hn, Hr, Ht.
Qed.

Lemma _on_lc_node_menu_view row exec_ self :
  view (_on_lc_node_menu ros row exec_ self).2 = view self.
Proof.
  assert (Hseq : ∀ n l1 l2 s,
             view ((_call_transition ros n l1 ;;
                    _call_transition ros n l2) s).2 = view s).
  { intros n l1 l2 s. unfold mbind, M_bind.
    pose proof (_call_transition_effect ros n l1 s) as (_ & _ & Hv).
    destruct (_call_transition ros n l1 s) as [[[]|e] s1]; simpl in Hv;
      [|done].
    pose proof (_call_transition_effect ros n l2 s1) as (_ & _ & Hv2).
    simpl in Hv2. congruence. }
  unfold _on_lc_node_menu. destruct (row <? 0)%Z; [done|].
  unfold mbind at 1, M_bind at 1. cbn [get_self].
  unfold mbind at 1, M_bind at 1. unfold list_getitem.
  destruct (py_index (_lc_nodes self) row) as [lc_node|]; [|done].
  cbn [mret M_ret]. unfold mbind at 1, M_bind at 1.
  pose proof (build_menu_state lc_node self) as Hmenu.
  destruct (build_menu lc_node self) as [[menu|e] self1]; simpl in Hmenu;
    subst self1; [|done].
  unfold evaluate_action.
  repeat case_decide; try done; try apply Hseq;
    apply _call_transition_effect.
Qed.

Lemma slot_consistent ev self :
  consistent ros self → consistent ros (slot ros ev self).2.
Proof.
  intros Hinv. destruct ev as [| |row exec_]; cbn [slot].
  - rewrite _update_node_list_spec.
    pose proof (_list_lc_nodes_view self) as Hview.
    destruct (_list_lc_nodes ros self) as [[l|e] self1]; simpl in Hview.
    + case_decide; [|by apply (consistent_view self)].
      apply consistent_refresh_outcome.
      assert (Hsnap : snapshot (set_lc_node_names l self1).2 = snapshot self).
      { unfold snapshot. cbn [set_lc_node_names snd _table_model].
        by injection Hview as _ _ -> _. }
      rewrite Hsnap. apply Hinv.
    + by apply (consistent_view self).
  - rewrite _update_nodes_state_spec.
    apply consistent_refresh_outcome, Hinv.
  - apply (consistent_view self); [|done]. apply _on_lc_node_menu_view.
Qed.


Lemma run_consistent evs self :
  consistent ros self → consistent ros (run ros evs self).
Proof.
  revert self. induction evs as [|ev evs IH]; intros self Hinv; [done|].
  simpl. apply IH. by apply slot_consistent.
Qed.

End Polling.

(** ** Claims about the rows shown *)





(** C3, as the code has it: a listing that fails with [RuntimeError] is
    absorbed, no exception leaves the handler and its message is printed,
    but the node list is replaced by the empty list and the table shows no
    rows: the set known before is cleared, not retained. *)
Theorem failed_listing_clears_rows
    (ros : Ros) (path : string) (evs : list event) (e : exn) :
  let pre := run ros evs (__init__ path) in
  get_node_names ros (clock pre) = DiscoveryRaises e →
  is_RuntimeError e = true →
  ∃ post,
    _update_node_list ros pre = (Ok tt, post)
    ∧ _lc_node_names post = []
    ∧ _lc_nodes post = []
    ∧ snapshot post = []
    ∧ stdout post = stdout pre ++ [exn_text e].
Proof.
  cbv zeta. intros Hget Hrt.
  pose proof (run_consistent ros evs (__init__ path) (consistent_init ros path))
    as [Hempty _].
  set (pre := run ros evs (__init__ path)) in *.
  rewrite _update_node_list_spec, _list_lc_nodes_spec, Hget, Hrt.
  case_decide as Hne.
  - eexists. split; [reflexivity|]. by repeat split.
  - simpl in Hne.
    destruct Hempty as [Hrows Hshown]; [done|].
    eexists. split; [reflexivity|]. simpl.
    split; [done|]. split; [done|]. split; [|done].
    exact Hshown.
Qed.

Lemma failed_listing_clears_rows_witness :
  ∃ post,
    _update_node_list ros_outage
      (run ros_outage [update_node_list_timeout] (__init__ "/share"))
    = (Ok tt, post)
    ∧ _lc_node_names post = []
    ∧ _lc_nodes post = []
    ∧ snapshot post = []
    ∧ stdout post
      = stdout (run ros_outage [update_node_list_timeout] (__init__ "/share"))
        ++ ["discovery unreachable"].
Proof.
  apply (failed_listing_clears_rows ros_outage "/share"
           [update_node_list_timeout]
           (Exn RuntimeError "discovery unreachable"));
    reflexivity.
Defined.

(** C3 fails on the code: nodes [a] and [b] are shown as active, the
    next listing fails with [RuntimeError], and the table is left empty. *)
Lemma discovery_outage_counterexample :
  let before := run ros_outage [update_node_list_timeout] (__init__ "/share") in
  let after := run ros_outage
                 [update_node_list_timeout; update_node_list_timeout]
                 (__init__ "/share") in
  snapshot before = [mkNodeState "a" "active"; mkNodeState "b" "active"]
  ∧ get_node_names ros_outage (clock before)
    = DiscoveryRaises (Exn RuntimeError "discovery unreachable")
  ∧ snapshot after = []
  ∧ _lc_node_names after = []
  ∧ snapshot after ≠ snapshot before.
Proof. vm_compute. repeat split. discriminate. Qed.

(** C4, as the code has it: when, in a state refresh that no [None]
    answer interrupts, a query returns an exception for [N], one line for
    it is among those the refresh writes to stderr, and the rows shown
    afterwards are exactly the states the queries of this refresh
    returned, whatever was shown before: [N] has a row only if another
    query of the refresh returned a state under its name, and none
    otherwise, while the other names are not affected. *)
Theorem failed_query_drops_row
    (ros : Ros) (self : LifecycleManager) (N : string)
    (i : nat) (lc_node : NodeName) (e : exn) :
  _lc_node_names self !! i = Some lc_node →
  call_get_states ros (clock self + i) [nn_name lc_node] !! N
    = Some (StateExc e) →
  refresh_loaded ros (clock self) (_lc_node_names self) = true →
  (∀ j n label,
     _lc_node_names self !! j = Some n →
     call_get_states ros (clock self + j) [nn_name n] !! N
       ≠ Some (StateMsg label)) →
  ∃ post lines,
    _update_nodes_state ros self = (Ok tt, post)
    ∧ stderr post = stderr self ++ lines
    ∧ exception_line N e ∈ lines
    ∧ (∀ r, r ∈ snapshot post → name r ≠ N)
    ∧ (∀ r, r ∈ snapshot post
            ↔ ∃ j n,
                _lc_node_names self !! j = Some n
                ∧ call_get_states ros (clock self + j) [nn_name n]
                    !! name r = Some (StateMsg (state r))).
Proof.
  intros Hi He Hl Hother.
  exists (refreshed ros self),
         (all_lines ros (clock self) (_lc_node_names self)).
  split; [by apply _update_nodes_state_loaded|].
  change (snapshot (refreshed ros self))
    with (all_rows ros (clock self) (_lc_node_names self)).
  split; [done|]. split; [|split].
  - apply elem_of_all_lines.
    exists i, lc_node. split; [done|]. unfold batch_lines.
    apply elem_of_exception_lines; [apply NoDup_sorted_keys| |done].
    apply elem_of_sorted_keys. unfold batch_answer. by rewrite He.
  - intros r (j & n & Hj & Hr)%elem_of_all_rows HN.
    rewrite HN in Hr. by apply (Hother j n (state r) Hj).
  - intros r. apply elem_of_all_rows.
Qed.

Lemma failed_query_drops_row_witness :
  let self := run ros_flaky [update_node_list_timeout] (__init__ "/share") in
  ∃ post lines,
    _update_nodes_state ros_flaky self = (Ok tt, post)
    ∧ stderr post = stderr self ++ lines
    ∧ exception_line "a" (Exn OtherException "timed out") ∈ lines
    ∧ (∀ r, r ∈ snapshot post → name r ≠ "a")
    ∧ (∀ r, r ∈ snapshot post
            ↔ ∃ j n,
                _lc_node_names self !! j = Some n
                ∧ call_get_states ros_flaky (clock self + j) [nn_name n]
                    !! name r = Some (StateMsg (state r))).
Proof.
  apply (failed_query_drops_row ros_flaky
           (run ros_flaky [update_node_list_timeout] (__init__ "/share")) "a"
           0 node_a (Exn OtherException "timed out")).
  - reflexivity.
  - reflexivity.
  - reflexivity.
  - intros [|[|j]] n label Hj; vm_compute in Hj; try discriminate;
      injection Hj as <-; vm_compute; discriminate.
Defined.

(** C4 fails on the code: node [a] is shown as active, the next state
    query for [a] yields an exception, and afterwards [a] has no row at
    all, although it is still in the node list; [b] is updated. *)
Lemma failed_query_counterexample :
  let before := run ros_flaky [update_node_list_timeout] (__init__ "/share") in
  let after := run ros_flaky
                 [update_node_list_timeout; update_nodes_state_timeout]
                 (__init__ "/share") in
  snapshot before = [mkNodeState "a" "active"; mkNodeState "b" "active"]
  ∧ call_get_states ros_flaky (clock before) ["a"] !! "a"
    = Some (StateExc (Exn OtherException "timed out"))
  ∧ _lc_node_names after = [node_a; node_b]
  ∧ snapshot after = [mkNodeState "b" "inactive"]
  ∧ mkNodeState "a" "active" ∉ snapshot after.
Proof.
  vm_compute. repeat split.
  intros Hin. apply list_elem_of_In in Hin. simpl in Hin.
  destruct Hin as [Heq|[]]. discriminate.
Qed.

(** ** Claims about the context menu, over the states the plugin reaches *)

Section Reachable.

Variable ros : Ros.

Lemma slot_icons ev self : _icons (slot ros ev self).2 = _icons self.
Proof.
  destruct ev as [| |row exec_]; cbn [slot].
  - rewrite _update_node_list_spec.
    pose proof (_list_lc_nodes_view ros self) as Hview.
    destruct (_list_lc_nodes ros self) as [[l|e] self1];
      injection Hview as _ _ _ Hicons; [|done].
    case_decide; [|done].
    by destruct (refresh_outcome_view ros (set_lc_node_names l self1).2)
      as (_ & -> & _).
  - rewrite _update_nodes_state_spec.
    by destruct (refresh_outcome_view ros self) as (_ & -> & _).
  - pose proof (_on_lc_node_menu_view ros row exec_ self) as Hview.
    by injection Hview.
Qed.

Lemma run_icons path evs :
  _icons (run ros evs (__init__ path)) = lc_state_icons path.
Proof.
  change (lc_state_icons path) with (_icons (__init__ path)).
  generalize (__init__ path). induction evs as [|ev evs IH]; intros self;
    [done|].
  simpl. by rewrite IH, slot_icons.
Qed.

End Reachable.

(** C1, as the code has it: when [Configure and Activate] is picked on an
    unconfigured row and the answer to [configure] reports a failure (a
    false flag, [None] or an exception object), the handler writes the
    failure to stderr and goes on to [activate]: the transition service is
    invoked exactly twice for the node, [configure] first and [activate]
    second.  Nothing is reported beyond the printed lines: the handler
    returns [None], or [KeyError] leaves it when the answer to [activate]
    lacks the node, and the node list, the rows and the table are as
    before. *)
Theorem configure_and_activate_issues_both
    (ros : Ros) (path : string) (evs : list event) (row : Z)
    (exec_ : list MenuEntry → option QAction) (lc_node : NodeState)
    (v : ChangeValue) :
  let self := run ros evs (__init__ path) in
  (0 ≤ row)%Z →
  py_index (_lc_nodes self) row = Some lc_node →
  state lc_node = "unconfigured" →
  exec_ (menu_entries path "unconfigured") = Some action_spawn →
  call_change_states ros (clock self) {[ name lc_node := "configure" ]}
    !! name lc_node = Some v →
  is_failure v = true →
  let r := _on_lc_node_menu ros row exec_ self in
  let post := r.2 in
  let second := call_change_states ros (S (clock self))
                  {[ name lc_node := "activate" ]} !! name lc_node in
  calls post
  = calls self ++ [ChangeStates {[ name lc_node := "configure" ]};
                   ChangeStates {[ name lc_node := "activate" ]}]
  ∧ transition_requests (calls post)
    = transition_requests (calls self)
      ++ [(name lc_node, "configure"); (name lc_node, "activate")]
  ∧ stderr post
    = stderr self ++ transition_line (name lc_node) v
        :: stderr_lines (name lc_node) second
  ∧ stdout post = stdout self ++ stdout_lines (name lc_node) second
  ∧ r.1 = match second with
          | Some _ => Ok tt
          | None => Raise (Exn KeyError (name lc_node))
          end
  ∧ view post = view self.
Proof.
  cbv zeta. intros Hrow Hidx Hst Hexec Hv Hfail.
  pose proof (spawn_issues_both ros path _ row exec_ lc_node v
                (run_icons ros path evs) Hrow Hidx Hst Hexec Hv)
    as (Hc & Hreq & Herr & Hout & Hres & Hview).
  cbn [stderr_lines stdout_lines] in Herr, Hout.
  rewrite Hfail in Herr, Hout.
  by repeat split.
Qed.

Lemma configure_and_activate_issues_both_witness :
  let r := _on_lc_node_menu ros_refusing 0 (λ _, Some action_spawn)
             shown_unconfigured in
  calls r.2
  = calls shown_unconfigured ++ [ChangeStates {[ "a" := "configure" ]};
                                 ChangeStates {[ "a" := "activate" ]}]
  ∧ transition_requests (calls r.2)
    = transition_requests (calls shown_unconfigured)
      ++ [("a", "configure"); ("a", "activate")]
  ∧ stderr r.2
    = stderr shown_unconfigured
      ++ ["Transitioning failed"; "Transitioning failed"]
  ∧ stdout r.2 = stdout shown_unconfigured ++ []
  ∧ r.1 = Ok tt
  ∧ view r.2 = view shown_unconfigured.
Proof.
  exact (configure_and_activate_issues_both ros_refusing "/share"
           [update_node_list_timeout] 0 (λ _, Some action_spawn)
           (mkNodeState "a" "unconfigured") (ChangeBool false)
           ltac:(lia) eq_refl eq_refl eq_refl eq_refl eq_refl).
Defined.

(** C9: invoked away from any row, or on a row whose menu is dismissed
    without a choice, or on a row whose state is none of [active],
    [inactive] and [unconfigured], the handler returns and leaves the
    plugin as it was: no service call, same node list, same rows. *)
Theorem menu_without_action_is_inert
    (ros : Ros) (path : string) (evs : list event) (row : Z)
    (exec_ : list MenuEntry → option QAction) :
  let self := run ros evs (__init__ path) in
  ((row < 0)%Z
   ∨ ∃ lc_node,
       py_index (_lc_nodes self) row = Some lc_node
       ∧ (exec_ (menu_entries path (state lc_node)) = None
          ∨ (state lc_node ≠ "active" ∧ state lc_node ≠ "inactive"
             ∧ state lc_node ≠ "unconfigured"))) →
  _on_lc_node_menu ros row exec_ self = (Ok tt, self).
Proof.
  cbv zeta. intros Hcase.
  by apply (inert_menu ros path _ row exec_ (run_icons ros path evs)).
Qed.

Lemma menu_without_action_is_inert_witness :
  _on_lc_node_menu ros_refusing 0 (λ _, None) shown_unconfigured
  = (Ok tt, shown_unconfigured).
Proof.
  apply (menu_without_action_is_inert ros_refusing "/share"
           [update_node_list_timeout] 0 (λ _, None)).
  right. exists (mkNodeState "a" "unconfigured"). split; [reflexivity|].
  left. reflexivity.
Defined.


(** * Further properties of the code *)

(** ** Listing and refreshing *)

(** X1: a listing that returns the node list already held only logs the
    directory call; no state query is issued and nothing else changes. *)
Theorem unchanged_listing_skips_refresh (ros : Ros) (self : LifecycleManager) :
  get_node_names ros (clock self) = Nodes (_lc_node_names self) →
  _update_node_list ros self = (Ok tt, invoked ListNodes self).
Proof.
  intros Hget. rewrite _update_node_list_spec, _list_lc_nodes_spec, Hget.
  by rewrite decide_False by (by intros []).
Qed.

Lemma unchanged_listing_skips_refresh_witness :
  _update_node_list ros_steady
    (run ros_steady [update_node_list_timeout] (__init__ "/share"))
  = (Ok tt, invoked ListNodes
              (run ros_steady [update_node_list_timeout] (__init__ "/share"))).
Proof.
  apply (unchanged_listing_skips_refresh ros_steady). reflexivity.
Defined.



(** X3: only [RuntimeError] is absorbed by the listing.  Any other
    exception leaves [_update_node_list] with the node list, the rows, the
    table and both output streams untouched. *)
Theorem other_exception_escapes_listing
    (ros : Ros) (self : LifecycleManager) (e : exn) :
  get_node_names ros (clock self) = DiscoveryRaises e →
  is_RuntimeError e = false →
  _update_node_list ros self = (Raise e, invoked ListNodes self).
Proof.
  intros Hget Hrt.
  by rewrite _update_node_list_spec, _list_lc_nodes_spec, Hget, Hrt.
Qed.

Lemma other_exception_escapes_listing_witness :
  _update_node_list ros_broken (__init__ "/share")
  = (Raise (Exn OtherException "interrupted"),
     invoked ListNodes (__init__ "/share")).
Proof.
  apply (other_exception_escapes_listing ros_broken (__init__ "/share")
           (Exn OtherException "interrupted")); reflexivity.
Defined.

(** X4: a state refresh returns normally exactly when none of the
    answers holds [None].  Then it has queried every listed node once, in
    list order, and has installed the rows it built as the table.
    Otherwise [AttributeError] leaves it at the first answer that holds
    [None]: the nodes up to that one have been queried, the later ones
    have not, and the table model is the one installed before.  In both
    cases the node list and stdout are as they were. *)
Theorem state_refresh_queries_each_node (ros : Ros) (self : LifecycleManager) :
  let names := _lc_node_names self in
  let r := _update_nodes_state ros self in
  let post := r.2 in
  let query := λ n, GetStates [nn_name n] in
  _lc_node_names post = names
  ∧ stdout post = stdout self
  ∧ if refresh_loaded ros (clock self) names
    then r.1 = Ok tt
         ∧ calls post = calls self ++ (query <$> names)
         ∧ clock post = clock self + length names
         ∧ _table_model post = Some (mkTable (_lc_nodes post) (_icons self))
         ∧ snapshot post = _lc_nodes post
    else r.1 = Raise no_label
         ∧ _table_model post = _table_model self
         ∧ ∃ i lc_node,
             names !! i = Some lc_node
             ∧ loaded (call_get_states ros (clock self + i) [nn_name lc_node])
               = false
             ∧ refresh_loaded ros (clock self) (take i names) = true
             ∧ calls post = calls self ++ (query <$> take (S i) names)
             ∧ clock post = clock self + S i.
Proof.
  cbv zeta. rewrite _update_nodes_state_spec. unfold refresh_outcome.
  destruct (refresh_loaded ros (clock self) (_lc_node_names self)) eqn:Hl;
    cbn [fst snd]; (split; [done|]); (split; [done|]).
  - by repeat split.
  - split; [done|]. split; [done|].
    destruct (queried_interrupted ros _ _ Hl) as (i & lc_node & Hq & Hi & Hn & Hp).
    exists i, lc_node. cbn [interrupted calls clock]. rewrite Hq.
    by repeat split.
Qed.

(** A run of the second case: node [a] is shown as active, the next
    state query answers [None] for it, [AttributeError] leaves the refresh
    with the rows reset, and the table still shows [a] as active. *)
Example none_answer_keeps_table :
  let before := run ros_void [update_node_list_timeout] (__init__ "/share") in
  let r := _update_nodes_state ros_void before in
  snapshot before = [mkNodeState "a" "active"]
  ∧ call_get_states ros_void (clock before) ["a"] !! "a" = Some StateNone
  ∧ r.1 = Raise no_label
  ∧ _lc_nodes r.2 = []
  ∧ snapshot r.2 = [mkNodeState "a" "active"].
Proof. vm_compute. by repeat split. Qed.

Lemma all_rows_names (ros : Ros) t l1 l2 :
  nn_name <$> l1 = nn_name <$> l2 → all_rows ros t l1 = all_rows ros t l2.
Proof.
  revert t l2. induction l1 as [|n1 l1 IH]; intros t [|n2 l2] Heq;
    try done.
  injection Heq as Hn Hl. cbn [all_rows].
  rewrite (IH (S t) l2 Hl). f_equal.
  unfold batch_rows, batch_survivors, batch_answer. by rewrite Hn.
Qed.

Lemma refresh_loaded_names (ros : Ros) t l1 l2 :
  nn_name <$> l1 = nn_name <$> l2 →
  refresh_loaded ros t l1 = refresh_loaded ros t l2.
Proof.
  revert t l2. induction l1 as [|n1 l1 IH]; intros t [|n2 l2] Heq;
    try done.
  injection Heq as Hn Hl. cbn [refresh_loaded].
  rewrite (IH (S t) l2 Hl). unfold batch_answer. by rewrite Hn.
Qed.

(** X5: when no answer holds [None], the rows a state refresh shows
    depend only on the bare names in the node list and on the answers
    received: rows shown before are not carried over, and the namespaces
    of the listed nodes play no part. *)
Theorem refresh_forgets_previous_rows
    (ros : Ros) (self self' : LifecycleManager) :
  nn_name <$> _lc_node_names self = nn_name <$> _lc_node_names self' →
  clock self = clock self' →
  refresh_loaded ros (clock self) (_lc_node_names self) = true →
  snapshot (_update_nodes_state ros self).2
  = snapshot (_update_nodes_state ros self').2.
Proof.
  intros Hnames Hclock Hl.
  rewrite (_update_nodes_state_loaded ros self Hl).
  rewrite (_update_nodes_state_loaded ros self')
    by (by rewrite <- Hclock, <- (refresh_loaded_names ros _ _ _ Hnames)).
  change (all_rows ros (clock self) (_lc_node_names self)
          = all_rows ros (clock self') (_lc_node_names self')).
  rewrite Hclock. by apply all_rows_names.
Qed.

Lemma refresh_forgets_previous_rows_witness :
  snapshot
    (_update_nodes_state ros_steady
       (mkPlugin [node_left] [mkNodeState "stale" "active"] None ∅ 0 [] [] [])).2
  = snapshot
      (_update_nodes_state ros_steady
         (mkPlugin [node_right] [] None ∅ 0 [] [] [])).2.
Proof.
  apply (refresh_forgets_previous_rows ros_steady
           (mkPlugin [node_left] [mkNodeState "stale" "active"] None ∅ 0 [] [] [])
           (mkPlugin [node_right] [] None ∅ 0 [] [] []));
    reflexivity.
Defined.

Lemma all_rows_stationary (ros : Ros) t t' l :
  (∀ t t' q, call_get_states ros t q = call_get_states ros t' q) →
  all_rows ros t l = all_rows ros t' l.
Proof.
  intros Hst. revert t t'. induction l as [|n l IH]; intros t t'; [done|].
  cbn [all_rows]. rewrite (IH (S t) (S t')). f_equal.
  unfold batch_rows, batch_survivors, batch_answer.
  by rewrite (Hst t t').
Qed.

Lemma refresh_loaded_stationary (ros : Ros) t t' l :
  (∀ t t' q, call_get_states ros t q = call_get_states ros t' q) →
  refresh_loaded ros t l = refresh_loaded ros t' l.
Proof.
  intros Hst. revert t t'. induction l as [|n l IH]; intros t t'; [done|].
  cbn [refresh_loaded]. rewrite (IH (S t) (S t')).
  unfold batch_answer. by rewrite (Hst t t').
Qed.

(** X6: when the state service gives the same answers whenever it is
    asked, refreshing twice shows the same rows as refreshing once. *)
Theorem stationary_refresh_is_idempotent
    (ros : Ros) (self : LifecycleManager) :
  (∀ t t' q, call_get_states ros t q = call_get_states ros t' q) →
  let once := (_update_nodes_state ros self).2 in
  let twice := (_update_nodes_state ros once).2 in
  snapshot twice = snapshot once.
Proof.
  intros Hst. cbv zeta. rewrite !_update_nodes_state_spec.
  unfold refresh_outcome at 2.
  destruct (refresh_loaded ros (clock self) (_lc_node_names self)) eqn:Hl;
    cbn [snd]; unfold refresh_outcome.
  - cbn [refreshed clock _lc_node_names].
    rewrite (refresh_loaded_stationary ros _ (clock self) _ Hst), Hl.
    change (all_rows ros (clock self + length (_lc_node_names self))
              (_lc_node_names self)
            = all_rows ros (clock self) (_lc_node_names self)).
    by apply all_rows_stationary.
  - cbn [interrupted clock _lc_node_names].
    by rewrite (refresh_loaded_stationary ros _ (clock self) _ Hst), Hl.
Qed.

Lemma stationary_refresh_is_idempotent_witness :
  snapshot
    (_update_nodes_state ros_steady
       (_update_nodes_state ros_steady
          (run ros_steady [update_node_list_timeout] (__init__ "/share"))).2).2
  = snapshot
      (_update_nodes_state ros_steady
         (run ros_steady [update_node_list_timeout] (__init__ "/share"))).2.
Proof.
  apply (stationary_refresh_is_idempotent ros_steady
           (run ros_steady [update_node_list_timeout] (__init__ "/share"))).
  reflexivity.
Defined.

(** ** What becomes of the entries of an answer *)

Lemma length_sorted_keys {V} (d : gmap string V) :
  length (sorted_keys d) = size d.
Proof.
  unfold sorted_keys. rewrite merge_sort_Permutation.
  by rewrite length_fmap, length_map_to_list.
Qed.

Lemma size_delete_exceptions ks (d : gmap string StateValue) :
  NoDup ks → (∀ k, k ∈ ks → is_Some (d !! k)) →
  size (delete_exceptions ks d) + length (exception_lines ks d) = size d.
Proof.
  intros Hnd. revert d.
  induction Hnd as [|k ks Hk Hnd IH]; intros d Hdom; [simpl; lia|].
  destruct (Hdom k) as [v Hv]; [by left|].
  cbn [delete_exceptions exception_lines]. rewrite Hv.
  destruct v as [label|e|].
  - apply IH. intros k' Hk'. apply Hdom. by right.
  - cbn [length]. rewrite Nat.add_succ_r, IH.
    + rewrite map_size_delete_Some by (by exists (StateExc e)).
      assert (size d ≠ 0); [|lia].
      intros Hz%map_size_empty_inv. by rewrite Hz, lookup_empty in Hv.
    + intros k' Hk'. rewrite lookup_delete_ne by (by intros ->).
      apply Hdom. by right.
  - apply IH. intros k' Hk'. apply Hdom. by right.
Qed.

Lemma batch_partition (ros : Ros) t lc_node :
  loaded (batch_answer ros t lc_node) = true →
  length (batch_rows ros t lc_node) + length (batch_lines ros t lc_node)
  = size (batch_answer ros t lc_node).
Proof.
  intros Hl.
  rewrite <- (length_fmap name), batch_rows_names, length_sorted_keys by done.
  unfold batch_survivors, batch_lines. apply size_delete_exceptions.
  - apply NoDup_sorted_keys.
  - intros k. by rewrite elem_of_sorted_keys.
Qed.

Lemma all_partition (ros : Ros) t names :
  refresh_loaded ros t names = true →
  length (all_rows ros t names) + length (all_lines ros t names)
  = sum_list_with size (all_answers ros t names).
Proof.
  revert t. induction names as [|n names IH]; intros t Hl; [done|].
  cbn [refresh_loaded] in Hl. apply andb_prop in Hl as [Hn Hl].
  cbn [all_rows all_lines all_answers sum_list_with].
  rewrite !length_app, <- (IH _ Hl), <- (batch_partition _ _ _ Hn). lia.
Qed.

(** X7: in a state refresh that no [None] answer interrupts, every entry
    of every answer ends up as exactly one thing, a row of the table or a
    line on stderr: the rows shown and the lines written add up to the
    number of entries received. *)
Theorem answer_entries_partition (ros : Ros) (self : LifecycleManager) :
  refresh_loaded ros (clock self) (_lc_node_names self) = true →
  let post := (_update_nodes_state ros self).2 in
  ∃ lines,
    stderr post = stderr self ++ lines
    ∧ length (snapshot post) + length lines
      = sum_list_with size
          (all_answers ros (clock self) (_lc_node_names self)).
Proof.
  intros Hl. cbv zeta. rewrite (_update_nodes_state_loaded ros self Hl).
  exists (all_lines ros (clock self) (_lc_node_names self)).
  split; [done|]. by apply all_partition.
Qed.

Lemma answer_entries_partition_witness :
  let self := run ros_flaky [update_node_list_timeout] (__init__ "/share") in
  let post := (_update_nodes_state ros_flaky self).2 in
  ∃ lines,
    stderr post = stderr self ++ lines
    ∧ length (snapshot post) + length lines
      = sum_list_with size
          (all_answers ros_flaky (clock self) (_lc_node_names self)).
Proof.
  apply (answer_entries_partition ros_flaky
           (run ros_flaky [update_node_list_timeout] (__init__ "/share"))).
  reflexivity.
Defined.

Lemma sublist_singleton {A} (l : list A) (a : A) :
  NoDup l → (∀ x, x ∈ l → x = a) → l `sublist_of` [a].
Proof.
  intros Hnd Hall. destruct l as [|x [|y l]].
  - apply sublist_nil_l.
  - rewrite (Hall x) by (by left). done.
  - exfalso. apply NoDup_cons in Hnd as [Hx _]. apply Hx.
    rewrite (Hall x) by (by left).
    rewrite <- (Hall y) by (right; by left). by left.
Qed.

Lemma all_rows_sublist (ros : Ros) t names :
  refresh_loaded ros t names = true →
  (∀ i lc_node k v,
     names !! i = Some lc_node →
     call_get_states ros (t + i) [nn_name lc_node] !! k = Some v →
     k = nn_name lc_node) →
  name <$> all_rows ros t names `sublist_of` nn_name <$> names.
Proof.
  revert t. induction names as [|n names IH]; intros t Hl Hkeys; [done|].
  cbn [refresh_loaded] in Hl. apply andb_prop in Hl as [Hn Hl].
  cbn [all_rows]. rewrite fmap_app, fmap_cons.
  change (nn_name n :: (nn_name <$> names))
    with ([nn_name n] ++ (nn_name <$> names)).
  apply sublist_app.
  - apply sublist_singleton; [by apply batch_rows_NoDup|].
    intros k [r [-> Hr]]%list_elem_of_fmap.
    apply elem_of_batch_rows in Hr.
    apply (Hkeys 0 n (name r) (StateMsg (state r))); [done|].
    by rewrite Nat.add_0_r.
  - apply IH; [done|]. intros i lc_node k v Hi Hv.
    apply (Hkeys (S i) lc_node k v); [done|].
    by replace (t + S i) with (S t + i) by lia.
Qed.

(** X8: when no answer holds [None] and every answer speaks only of the
    node that was asked about, the rows appear in the order of the node
    list, one at most per listed node: the names shown form a subsequence
    of the names listed. *)
Theorem rows_follow_listing_order (ros : Ros) (self : LifecycleManager) :
  refresh_loaded ros (clock self) (_lc_node_names self) = true →
  (∀ i lc_node k v,
     _lc_node_names self !! i = Some lc_node →
     call_get_states ros (clock self + i) [nn_name lc_node] !! k = Some v →
     k = nn_name lc_node) →
  let post := (_update_nodes_state ros self).2 in
  name <$> snapshot post `sublist_of` nn_name <$> _lc_node_names self.
Proof.
  intros Hl Hkeys. cbv zeta. rewrite (_update_nodes_state_loaded ros self Hl).
  by apply all_rows_sublist.
Qed.

Lemma all_in_state_lookup label node_name k v :
  all_in_state label [node_name] !! k = Some v → k = node_name.
Proof.
  unfold all_in_state. simpl. rewrite lookup_insert.
  case_decide; [done|]. by rewrite lookup_empty.
Qed.

Lemma rows_follow_listing_order_witness :
  name <$> snapshot
             (_update_nodes_state ros_steady
                (run ros_steady [update_node_list_timeout]
                   (__init__ "/share"))).2
  `sublist_of`
  nn_name <$> _lc_node_names
                (run ros_steady [update_node_list_timeout] (__init__ "/share")).
Proof.
  apply (rows_follow_listing_order ros_steady
           (run ros_steady [update_node_list_timeout] (__init__ "/share"))).
  - reflexivity.
  - intros i lc_node k v _ Hv. by apply all_in_state_lookup in Hv.
Defined.

Lemma answered_loaded (ros : Ros) t names :
  (∀ i lc_node,
     names !! i = Some lc_node →
     ∃ label, call_get_states ros (t + i) [nn_name lc_node]
              = {[ nn_name lc_node := StateMsg label ]}) →
  refresh_loaded ros t names = true.
Proof.
  intros Hans. apply refresh_loaded_intro. intros i lc_node Hi.
  destruct (Hans i lc_node Hi) as [label Hlabel].
  apply loaded_spec. intros k. unfold batch_answer. rewrite Hlabel.
  intros [_ [=]]%lookup_singleton_Some.
Qed.

Lemma all_rows_answered (ros : Ros) t names :
  (∀ i lc_node,
     names !! i = Some lc_node →
     ∃ label, call_get_states ros (t + i) [nn_name lc_node]
              = {[ nn_name lc_node := StateMsg label ]}) →
  name <$> all_rows ros t names = nn_name <$> names.
Proof.
  revert t. induction names as [|n names IH]; intros t Hans; [done|].
  pose proof (answered_loaded ros t (n :: names) Hans) as Hl.
  cbn [refresh_loaded] in Hl. apply andb_prop in Hl as [Hn _].
  cbn [all_rows]. rewrite fmap_app, fmap_cons.
  rewrite (IH (S t)).
  - destruct (Hans 0 n) as [label Hlabel]; [done|].
    rewrite Nat.add_0_r in Hlabel.
    assert (Hone : name <$> batch_rows ros t n = [nn_name n]); [|by rewrite Hone].
    assert (Hin : nn_name n ∈ name <$> batch_rows ros t n).
    { apply list_elem_of_fmap. exists (mkNodeState (nn_name n) label).
      split; [done|]. apply elem_of_batch_rows. unfold batch_answer.
      simpl. by rewrite Hlabel, lookup_singleton_eq. }
    assert (Hsub : name <$> batch_rows ros t n `sublist_of` [nn_name n]).
    { apply sublist_singleton; [by apply batch_rows_NoDup|].
      intros k [r [-> Hr]]%list_elem_of_fmap.
      apply elem_of_batch_rows in Hr. unfold batch_answer in Hr.
      rewrite Hlabel in Hr. by apply lookup_singleton_Some in Hr as [<- _]. }
    destruct (name <$> batch_rows ros t n) as [|x [|y l]].
    + by apply elem_of_nil in Hin.
    + by apply list_elem_of_singleton in Hin as ->.
    + apply sublist_length in Hsub. simpl in Hsub. lia.
  - intros i lc_node Hi. destruct (Hans (S i) lc_node Hi) as [label Hl].
    exists label. by replace (S t + i) with (t + S i) by lia.
Qed.

Lemma all_answers_singletons (ros : Ros) t names :
  (∀ i lc_node,
     names !! i = Some lc_node →
     ∃ label, call_get_states ros (t + i) [nn_name lc_node]
              = {[ nn_name lc_node := StateMsg label ]}) →
  sum_list_with size (all_answers ros t names) = length names.
Proof.
  revert t. induction names as [|n names IH]; intros t Hans; [done|].
  cbn [all_answers sum_list_with length]. rewrite (IH (S t)).
  - destruct (Hans 0 n) as [label Hl]; [done|]. rewrite Nat.add_0_r in Hl.
    unfold batch_answer. by rewrite Hl, map_size_singleton.
  - intros i lc_node Hi. destruct (Hans (S i) lc_node Hi) as [label Hl].
    exists label. by replace (S t + i) with (t + S i) by lia.
Qed.

(** X9: when every query of a state refresh is answered with a state for
    exactly the node asked about, the table shows one row per listed node,
    in list order, under the node's bare name, and nothing is written to
    stderr. *)
Theorem answered_refresh_shows_every_node
    (ros : Ros) (self : LifecycleManager) :
  (∀ i lc_node,
     _lc_node_names self !! i = Some lc_node →
     ∃ label, call_get_states ros (clock self + i) [nn_name lc_node]
              = {[ nn_name lc_node := StateMsg label ]}) →
  let post := (_update_nodes_state ros self).2 in
  name <$> snapshot post = nn_name <$> _lc_node_names self
  ∧ length (snapshot post) = length (_lc_node_names self)
  ∧ stderr post = stderr self.
Proof.
  intros Hans. cbv zeta.
  pose proof (answered_loaded ros _ _ Hans) as Hl.
  rewrite (_update_nodes_state_loaded ros self Hl).
  pose proof (all_rows_answered ros (clock self) (_lc_node_names self) Hans)
    as Hnames.
  pose proof (all_partition ros (clock self) (_lc_node_names self) Hl) as Hpart.
  rewrite (all_answers_singletons ros _ _ Hans) in Hpart.
  change (snapshot (refreshed ros self))
    with (all_rows ros (clock self) (_lc_node_names self)).
  assert (Hlen : length (all_rows ros (clock self) (_lc_node_names self))
                 = length (_lc_node_names self)).
  { by rewrite <- (length_fmap name), Hnames, length_fmap. }
  split; [done|]. split; [done|].
  assert (Hnil : all_lines ros (clock self) (_lc_node_names self) = []).
  { apply length_zero_iff_nil. lia. }
  change (stderr self ++ all_lines ros (clock self) (_lc_node_names self)
          = stderr self).
  by rewrite Hnil, app_nil_r.
Qed.

Lemma answered_refresh_shows_every_node_witness :
  let self := run ros_steady [update_node_list_timeout] (__init__ "/share") in
  let post := (_update_nodes_state ros_steady self).2 in
  name <$> snapshot post = nn_name <$> _lc_node_names self
  ∧ length (snapshot post) = length (_lc_node_names self)
  ∧ stderr post = stderr self.
Proof.
  apply (answered_refresh_shows_every_node ros_steady
           (run ros_steady [update_node_list_timeout] (__init__ "/share"))).
  intros i lc_node _. exists "active". unfold ros_steady, all_in_state. simpl.
  by rewrite insert_empty.
Defined.

(** ** Transition requests and the dispatch of menu actions *)

(** X10: a transition reported as done writes one line to stdout and
    nothing to stderr; any other answer for the node (a false flag, [None]
    or an exception object) writes one line to stderr and nothing to
    stdout. *)
Theorem transition_output_stream
    (ros : Ros) (node_name label : string) (self : LifecycleManager)
    (v : ChangeValue) :
  call_change_states ros (clock self) {[ node_name := label ]} !! node_name
    = Some v →
  let post := (_call_transition ros node_name label self).2 in
  if is_failure v
  then stdout post = stdout self ∧ ∃ line, stderr post = stderr self ++ [line]
  else stdout post = stdout self ++ ["Transitioning successful"]
       ∧ stderr post = stderr self.
Proof.
  intros Hv. cbv zeta. rewrite _call_transition_spec. cbv zeta. rewrite Hv.
  destruct v as [[|]| |e]; simpl; (split; [done|]); try done; by eexists.
Qed.

Lemma transition_output_stream_witness :
  stdout (_call_transition ros_obliging "a" "deactivate" shown_active).2
  = stdout shown_active ++ ["Transitioning successful"]
  ∧ stderr (_call_transition ros_obliging "a" "deactivate" shown_active).2
    = stderr shown_active.
Proof.
  apply (transition_output_stream ros_obliging "a" "deactivate" shown_active
           (ChangeBool true)).
  reflexivity.
Defined.

Section Dispatch.

Variable ros : Ros.

Lemma single_call node_name label self :
  let r := _call_transition ros node_name label self in
  ∃ k, 0 < k ≤ 1
       ∧ calls r.2
         = calls self
           ++ ((λ l, ChangeStates {[ node_name := l ]}) <$> take k [label])
       ∧ ((r.1 = Ok tt ∧ k = 1) ∨ r.1 = Raise (Exn KeyError node_name)).
Proof.
  cbv zeta. exists 1. split; [lia|].
  split; [apply _call_transition_effect|].
  rewrite _call_transition_result.
  destruct (call_change_states ros (clock self) {[node_name := label]}
              !! node_name); [by left|by right].
Qed.

Lemma double_call node_name l1 l2 self :
  let r := (_call_transition ros node_name l1 ;;
            _call_transition ros node_name l2) self in
  ∃ k, 0 < k ≤ 2
       ∧ calls r.2
         = calls self
           ++ ((λ l, ChangeStates {[ node_name := l ]}) <$> take k [l1; l2])
       ∧ ((r.1 = Ok tt ∧ k = 2) ∨ r.1 = Raise (Exn KeyError node_name)).
Proof.
  cbv zeta.
  pose proof (_call_transition_effect ros node_name l1 self) as (Hc & _ & _).
  pose proof (_call_transition_result ros node_name l1 self) as Hr.
  unfold mbind, M_bind.
  destruct (_call_transition ros node_name l1 self) as [[[]|e] self1];
    simpl in Hc, Hr.
  - exists 2. split; [lia|].
    pose proof (_call_transition_effect ros node_name l2 self1) as (Hc2 & _ & _).
    simpl in Hc2. split; [by rewrite Hc2, Hc, <- app_assoc|].
    rewrite _call_transition_result.
    destruct (call_change_states ros (clock self1) {[node_name := l2]}
                !! node_name); [by left|by right].
  - exists 1. split; [lia|]. split; [done|]. right. simpl.
    destruct (call_change_states ros (clock self) {[node_name := l1]}
                !! node_name); [done|]. by injection Hr as ->.
Qed.

Lemma single_call_answered node_name label self :
  is_Some (call_change_states ros (clock self) {[ node_name := label ]}
             !! node_name) →
  ∃ post,
    _call_transition ros node_name label self = (Ok tt, post)
    ∧ calls post = calls self ++ [ChangeStates {[ node_name := label ]}]
    ∧ clock post = S (clock self).
Proof.
  intros [v Hv].
  pose proof (_call_transition_result ros node_name label self) as Hres.
  pose proof (_call_transition_effect ros node_name label self) as (Hc & Ht & _).
  rewrite Hv in Hres.
  destruct (_call_transition ros node_name label self) as [r post].
  simpl in *. subst r. by exists post.
Qed.

Lemma single_call_completes node_name label self :
  (∀ t l, is_Some (call_change_states ros t {[ node_name := l ]} !! node_name)) →
  ∃ post,
    _call_transition ros node_name label self = (Ok tt, post)
    ∧ calls post = calls self ++ [ChangeStates {[ node_name := label ]}].
Proof.
  intros Hans.
  destruct (single_call_answered node_name label self (Hans _ _))
    as (post & Hr & Hc & _).
  by exists post.
Qed.

Lemma double_call_answered node_name l1 l2 self :
  (∀ t l, is_Some (call_change_states ros t {[ node_name := l ]} !! node_name)) →
  ∃ post,
    (_call_transition ros node_name l1 ;;
     _call_transition ros node_name l2) self = (Ok tt, post)
    ∧ calls post = calls self ++ [ChangeStates {[ node_name := l1 ]};
                                  ChangeStates {[ node_name := l2 ]}].
Proof.
  intros Hans.
  destruct (single_call_answered node_name l1 self (Hans _ _))
    as (s1 & H1 & Hc1 & _).
  destruct (single_call_answered node_name l2 s1 (Hans _ _))
    as (s2 & H2 & Hc2 & _).
  exists s2. unfold mbind, M_bind. rewrite H1, H2. split; [done|].
  by rewrite Hc2, Hc1, <- app_assoc.
Qed.

Lemma _on_lc_node_menu_shown path row exec_ self lc_node :
  _icons self = lc_state_icons path →
  (0 ≤ row)%Z → py_index (_lc_nodes self) row = Some lc_node →
  _on_lc_node_menu ros row exec_ self
  = evaluate_action ros lc_node (exec_ (menu_entries path (state lc_node))) self.
Proof.
  intros Hicons Hrow Hidx.
  rewrite (_on_lc_node_menu_row ros row exec_ self lc_node Hrow Hidx).
  unfold mbind at 1, M_bind at 1.
  by rewrite (build_menu_entries path lc_node self Hicons).
Qed.

Lemma evaluate_action_calls path lc_node oa self :
  let r := evaluate_action ros lc_node oa self in
  let issue := λ label, ChangeStates {[ name lc_node := label ]} in
  match oa with
  | Some a =>
      if bool_decide (a ∈ entry_action <$> menu_entries path (state lc_node))
      then ∃ k, 0 < k ≤ length (action_labels a)
                ∧ calls r.2
                  = calls self ++ (issue <$> take k (action_labels a))
                ∧ ((r.1 = Ok tt ∧ k = length (action_labels a))
                   ∨ r.1 = Raise (Exn KeyError (name lc_node)))
      else r = (Ok tt, self)
  | None => r = (Ok tt, self)
  end.
Proof.
  cbv zeta. unfold evaluate_action, menu_entries.
  destruct (decide (state lc_node = "active"));
    [|destruct (decide (state lc_node = "inactive"));
      [|destruct (decide (state lc_node = "unconfigured"))]];
    destruct oa as [[]|]; cbn; try done;
    first [apply single_call | apply double_call].
Qed.

Lemma evaluate_action_answered path lc_node a self :
  a ∈ entry_action <$> menu_entries path (state lc_node) →
  (∀ t l, is_Some (call_change_states ros t {[ name lc_node := l ]}
                     !! name lc_node)) →
  ∃ post,
    evaluate_action ros lc_node (Some a) self = (Ok tt, post)
    ∧ calls post
      = calls self
        ++ ((λ label, ChangeStates {[ name lc_node := label ]})
              <$> action_labels a).
Proof.
  intros Hin Hans. apply (bool_decide_eq_true_2 _) in Hin. revert Hin.
  unfold evaluate_action, menu_entries.
  destruct (decide (state lc_node = "active"));
    [|destruct (decide (state lc_node = "inactive"));
      [|destruct (decide (state lc_node = "unconfigured"))]];
    destruct a; cbn; try done; intros _;
    first [ by apply double_call_answered
          | by apply single_call_completes ].
Qed.

Lemma evaluate_action_aborts lc_node a first self :
  (state lc_node = "active" ∧ a = action_unspawn ∧ first = "deactivate")
  ∨ (state lc_node = "unconfigured" ∧ a = action_spawn
     ∧ first = "configure") →
  call_change_states ros (clock self) {[ name lc_node := first ]}
    !! name lc_node = None →
  ∃ post,
    evaluate_action ros lc_node (Some a) self
    = (Raise (Exn KeyError (name lc_node)), post)
    ∧ calls post = calls self ++ [ChangeStates {[ name lc_node := first ]}].
Proof.
  intros Hcase Hnone.
  pose proof (_call_transition_result ros (name lc_node) first self) as Hres.
  pose proof (_call_transition_effect ros (name lc_node) first self)
    as (Hc & _ & _).
  rewrite Hnone in Hres.
  unfold evaluate_action.
  destruct Hcase as [(Hst & -> & ->)|(Hst & -> & ->)]; rewrite Hst;
    repeat (case_decide; try done); unfold mbind, M_bind;
    destruct (_call_transition ros (name lc_node) _ self) as [r post];
    simpl in *; subst r; by exists post.
Qed.

End Dispatch.

(** X11: the handler acts on a choice exactly when it is an entry of the
    menu shown for the row.  For an entry it requests that action's
    transitions for the row's node, in order: all of them when it returns
    normally, and otherwise [KeyError] leaves it after the first or the
    second request.  For any other choice, and when the menu is dismissed,
    it returns and leaves the plugin as it was. *)
Theorem menu_dispatch
    (ros : Ros) (path : string) (evs : list event) (row : Z)
    (exec_ : list MenuEntry → option QAction) (lc_node : NodeState) :
  let self := run ros evs (__init__ path) in
  let menu := menu_entries path (state lc_node) in
  (0 ≤ row)%Z →
  py_index (_lc_nodes self) row = Some lc_node →
  let r := _on_lc_node_menu ros row exec_ self in
  let issue := λ label, ChangeStates {[ name lc_node := label ]} in
  match exec_ menu with
  | Some a =>
      if bool_decide (a ∈ entry_action <$> menu)
      then ∃ k, 0 < k ≤ length (action_labels a)
                ∧ calls r.2
                  = calls self ++ (issue <$> take k (action_labels a))
                ∧ ((r.1 = Ok tt ∧ k = length (action_labels a))
                   ∨ r.1 = Raise (Exn KeyError (name lc_node)))
      else r = (Ok tt, self)
  | None => r = (Ok tt, self)
  end.
Proof.
  cbv zeta. intros Hrow Hidx.
  rewrite (_on_lc_node_menu_shown ros path row exec_ _ lc_node
             (run_icons ros path evs) Hrow Hidx).
  apply evaluate_action_calls.
Qed.

Lemma menu_dispatch_witness :
  let r := _on_lc_node_menu ros_obliging 0 (λ _, Some action_unspawn)
             shown_active in
  ∃ k, 0 < k ≤ length (action_labels action_unspawn)
       ∧ calls r.2
         = calls shown_active
           ++ ((λ label, ChangeStates {[ "a" := label ]})
                 <$> take k (action_labels action_unspawn))
       ∧ ((r.1 = Ok tt ∧ k = length (action_labels action_unspawn))
          ∨ r.1 = Raise (Exn KeyError "a")).
Proof.
  apply (menu_dispatch ros_obliging "/share" [update_node_list_timeout] 0
           (λ _, Some action_unspawn) (mkNodeState "a" "active"));
    first [reflexivity | lia].
Defined.

(** X12: when the transition service answers every request with an
    entry for the node asked about, whatever that entry says, the handler
    returns normally and every entry of the menu runs to completion: all
    transitions of the chosen action are requested, in order. *)
Theorem answered_action_runs_to_completion
    (ros : Ros) (path : string) (evs : list event) (row : Z)
    (exec_ : list MenuEntry → option QAction) (lc_node : NodeState)
    (a : QAction) :
  let self := run ros evs (__init__ path) in
  let menu := menu_entries path (state lc_node) in
  (0 ≤ row)%Z →
  py_index (_lc_nodes self) row = Some lc_node →
  exec_ menu = Some a →
  a ∈ entry_action <$> menu →
  (∀ t l, is_Some (call_change_states ros t {[ name lc_node := l ]}
                     !! name lc_node)) →
  ∃ post,
    _on_lc_node_menu ros row exec_ self = (Ok tt, post)
    ∧ calls post
      = calls self
        ++ ((λ label, ChangeStates {[ name lc_node := label ]})
              <$> action_labels a).
Proof.
  cbv zeta. intros Hrow Hidx Hexec Hin Hans.
  rewrite (_on_lc_node_menu_shown ros path row exec_ _ lc_node
             (run_icons ros path evs) Hrow Hidx), Hexec.
  by apply (evaluate_action_answered ros path).
Qed.

Lemma answered_action_runs_to_completion_witness :
  ∃ post,
    _on_lc_node_menu ros_obliging 0 (λ _, Some action_unspawn) shown_active
    = (Ok tt, post)
    ∧ calls post
      = calls shown_active
        ++ ((λ label, ChangeStates {[ "a" := label ]})
              <$> action_labels action_unspawn).
Proof.
  apply (answered_action_runs_to_completion ros_obliging "/share"
           [update_node_list_timeout] 0 (λ _, Some action_unspawn)
           (mkNodeState "a" "active") action_unspawn).
  - lia.
  - reflexivity.
  - reflexivity.
  - apply (bool_decide_unpack _). vm_compute. exact I.
  - intros t l. unfold ros_obliging. simpl.
    rewrite map_fmap_singleton, lookup_singleton_eq. by eexists.
Defined.

(** X13: in a two-step action ([Deactivate and cleanup] on an active
    row, [Configure and Activate] on an unconfigured one), when the answer
    to the first request lacks the node, [KeyError] leaves the handler and
    the second step is not requested: the service has been invoked once,
    for the first transition. *)
Theorem absent_answer_aborts_combined_action
    (ros : Ros) (path : string) (evs : list event) (row : Z)
    (exec_ : list MenuEntry → option QAction) (lc_node : NodeState)
    (a : QAction) (first : string) :
  let self := run ros evs (__init__ path) in
  (0 ≤ row)%Z →
  py_index (_lc_nodes self) row = Some lc_node →
  exec_ (menu_entries path (state lc_node)) = Some a →
  (state lc_node = "active" ∧ a = action_unspawn ∧ first = "deactivate")
  ∨ (state lc_node = "unconfigured" ∧ a = action_spawn
     ∧ first = "configure") →
  call_change_states ros (clock self) {[ name lc_node := first ]}
    !! name lc_node = None →
  ∃ post,
    _on_lc_node_menu ros row exec_ self
    = (Raise (Exn KeyError (name lc_node)), post)
    ∧ calls post = calls self ++ [ChangeStates {[ name lc_node := first ]}].
Proof.
  cbv zeta. intros Hrow Hidx Hexec Hcase Hnone.
  rewrite (_on_lc_node_menu_shown ros path row exec_ _ lc_node
             (run_icons ros path evs) Hrow Hidx), Hexec.
  by apply (evaluate_action_aborts ros lc_node a first).
Qed.

Lemma absent_answer_aborts_combined_action_witness :
  let self := run ros_silent [update_node_list_timeout] (__init__ "/share") in
  ∃ post,
    _on_lc_node_menu ros_silent 0 (λ _, Some action_spawn) self
    = (Raise (Exn KeyError "a"), post)
    ∧ calls post = calls self ++ [ChangeStates {[ "a" := "configure" ]}].
Proof.
  apply (absent_answer_aborts_combined_action ros_silent "/share"
           [update_node_list_timeout] 0 (λ _, Some action_spawn)
           (mkNodeState "a" "unconfigured") action_spawn "configure").
  - lia.
  - reflexivity.
  - reflexivity.
  - right. repeat split; reflexivity.
  - reflexivity.
Defined.

(** ** What the timers never do *)

Section Timers.

Variable ros : Ros.

Lemma transition_requests_queries (names : list NodeName) :
  transition_requests ((λ n, GetStates [nn_name n]) <$> names) = [].
Proof. unfold transition_requests. by induction names. Qed.

Lemma refresh_outcome_requests self :
  transition_requests (calls (refresh_outcome ros self).2)
  = transition_requests (calls self).
Proof.
  destruct (refresh_outcome_view ros self) as (_ & _ & _ & q & _ & -> & _).
  by rewrite transition_requests_app, transition_requests_queries, app_nil_r.
Qed.

Lemma invoked_ListNodes_requests self :
  transition_requests (calls (invoked ListNodes self))
  = transition_requests (calls self).
Proof.
  unfold invoked. cbn [calls]. rewrite transition_requests_app.
  apply app_nil_r.
Qed.

Lemma _update_node_list_requests self :
  transition_requests (calls (_update_node_list ros self).2)
  = transition_requests (calls self).
Proof.
  rewrite _update_node_list_spec, _list_lc_nodes_spec.
  destruct (get_node_names ros (clock self)) as [l|e];
    [|destruct (is_RuntimeError e)]; repeat case_decide; cbn [snd];
    rewrite ?refresh_outcome_requests; apply invoked_ListNodes_requests.
Qed.

Lemma timeout_requests ev self :
  is_timeout ev = true →
  transition_requests (calls (slot ros ev self).2)
  = transition_requests (calls self).
Proof.
  destruct ev; [intros _..|done]; cbn [slot].
  - apply _update_node_list_requests.
  - rewrite _update_nodes_state_spec. apply refresh_outcome_requests.
Qed.

End Timers.

(** X14: the timers only observe.  Whatever the directory and the state
    service answer, a run of timer events alone sends no transition
    request: every request to change a node's state stems from a choice
    made in the context menu. *)
Theorem timers_request_no_transition
    (ros : Ros) (evs : list event) (self : LifecycleManager) :
  forallb is_timeout evs = true →
  transition_requests (calls (run ros evs self))
  = transition_requests (calls self).
Proof.
  revert self. induction evs as [|ev evs IH]; intros self Hevs; [done|].
  cbn [forallb] in Hevs. apply andb_prop in Hevs as [Hev Hevs].
  change (run ros (ev :: evs) self) with (run ros evs (slot ros ev self).2).
  by rewrite IH, timeout_requests.
Qed.

Lemma timers_request_no_transition_witness :
  transition_requests
    (calls (run ros_steady
              [update_node_list_timeout; update_nodes_state_timeout;
               update_node_list_timeout] (__init__ "/share")))
  = transition_requests (calls (__init__ "/share")).
Proof.
  apply (timers_request_no_transition ros_steady
           [update_node_list_timeout; update_nodes_state_timeout;
            update_node_list_timeout] (__init__ "/share")).
  reflexivity.
Defined.

(** ** The table model that is installed *)

Lemma model_installed_view path self self' :
  view self' = view self → model_installed path self →
  model_installed path self'.
Proof.
  destruct self, self'. unfold view, model_installed. cbn.
  intros [= -> -> -> ->]. done.
Qed.

Lemma model_installed_refresh_outcome ros path self :
  model_installed path self →
  model_installed path (refresh_outcome ros self).2.
Proof.
  intros [Hicons Htbl]. unfold refresh_outcome, model_installed.
  by destruct (refresh_loaded ros (clock self) (_lc_node_names self)).
Qed.

Lemma slot_model_installed ros path ev self :
  model_installed path self → model_installed path (slot ros ev self).2.
Proof.
  intros Hinv. destruct ev as [| |row exec_]; cbn [slot].
  - rewrite _update_node_list_spec.
    pose proof (_list_lc_nodes_view ros self) as Hview.
    destruct (_list_lc_nodes ros self) as [[l|e] self1]; cbn [snd] in *.
    + case_decide; cbn [snd].
      * apply model_installed_refresh_outcome.
        destruct Hinv as [Hicons Htbl]. unfold model_installed.
        cbn [set_lc_node_names snd _icons _table_model].
        by injection Hview as _ _ -> ->.
      * by apply (model_installed_view path self).
    + by apply (model_installed_view path self).
  - rewrite _update_nodes_state_spec.
    by apply model_installed_refresh_outcome.
  - apply (model_installed_view path self); [|done].
    apply _on_lc_node_menu_view.
Qed.

(** X15: whatever events have been delivered, a table model installed in
    the view carries the icons of [__init__] and the rows of one state
    refresh that ran to its end; and a state refresh that returns has
    installed the table model that [_show_lc_nodes] builds from the rows
    just gathered and these icons, with one table row per gathered row. *)
Theorem installed_model_holds_rows
    (ros : Ros) (path : string) (evs : list event) :
  let self := run ros evs (__init__ path) in
  (∀ tbl, _table_model self = Some tbl →
          tbl_icons tbl = lc_state_icons path
          ∧ ∃ t names, refresh_loaded ros t names = true
                       ∧ _data tbl = all_rows ros t names)
  ∧ (∀ post, _update_nodes_state ros self = (Ok tt, post) →
             _table_model post
             = Some (mkTable (_lc_nodes post) (lc_state_icons path))
             ∧ LifecycleNodeTable.rowCount
                 (mkTable (_lc_nodes post) (lc_state_icons path))
               = length (_lc_nodes post)).
Proof.
  cbv zeta.
  assert (Hinv : model_installed path (run ros evs (__init__ path))).
  { assert (H0 : model_installed path (__init__ path)) by done.
    revert H0. generalize (__init__ path).
    induction evs as [|ev evs IH]; intros self Hself; [done|].
    apply (IH (slot ros ev self).2), slot_model_installed, Hself. }
  destruct (run_consistent ros evs (__init__ path) (consistent_init ros path))
    as [_ (t & names & Hl & Hrows)].
  destruct Hinv as [Hicons Htbl]. split.
  - intros tbl Heq. rewrite Heq in Htbl. split; [done|].
    exists t, names. split; [done|].
    unfold snapshot in Hrows. by rewrite Heq in Hrows.
  - intros post. rewrite _update_nodes_state_spec. unfold refresh_outcome.
    destruct (refresh_loaded ros (clock (run ros evs (__init__ path)))
                (_lc_node_names (run ros evs (__init__ path)))); [|done].
    intros [= <-]. cbn [refreshed _table_model _lc_nodes]. by rewrite Hicons.
Qed.

(** ** Cells and headers of the table model *)

Lemma py_index_is_Some {A} (l : list A) (i : Z) :
  is_Some (py_index l i)
  ↔ (- Z.of_nat (length l) ≤ i < Z.of_nat (length l))%Z.
Proof.
  unfold py_index.
  destruct (Z.ltb_spec i 0);
    [destruct (Z.ltb_spec (Z.of_nat (length l) + i) 0)
    |destruct (Z.ltb_spec i 0)];
    rewrite ?lookup_lt_is_Some; split; try lia;
    intros [? ?]; done.
Qed.

Lemma index_error_c_int (i : Z) :
  c_int i → index_error i = Exn IndexError "list index out of range".
Proof.
  unfold c_int, index_error. intros [Hlo Hhi].
  assert (H31 : (2 ^ 31 < 2 ^ 63)%Z) by done.
  destruct (Z.leb_spec (- 2 ^ 63) i); [|lia].
  destruct (Z.ltb_spec i (2 ^ 63)); [done|lia].
Qed.

(** X16: for an index whose row is a C [int], [data] answers [None] when
    the index is invalid, and for a valid one it returns exactly when the
    row lies within the list, counted from the front or, as Python
    indexes, from the back; for any other row [IndexError] leaves the
    method, whatever the column and the role. *)
Theorem data_row_range
    (tbl : LifecycleNodeTable) (index : QModelIndex) (role : ItemDataRole) :
  c_int (row index) →
  let n := Z.of_nat (LifecycleNodeTable.rowCount tbl) in
  ((∃ v, LifecycleNodeTable.data tbl index role = Ok v)
   ↔ isValid index = false ∨ (- n ≤ row index < n)%Z)
  ∧ (isValid index = false → LifecycleNodeTable.data tbl index role = Ok PyNone)
  ∧ (∀ e, LifecycleNodeTable.data tbl index role = Raise e →
          e = Exn IndexError "list index out of range").
Proof.
  intros Hint. pose proof (index_error_c_int _ Hint) as Herr.
  cbv zeta. unfold LifecycleNodeTable.data, LifecycleNodeTable.rowCount.
  pose proof (py_index_is_Some (_data tbl) (row index)) as Hidx.
  destruct (isValid index); cbn [negb].
  - destruct (py_index (_data tbl) (row index)) as [lc_node|].
    + split; [|split; [done|]].
      * split; [intros _; right; apply Hidx; by eexists|intros _].
        repeat case_match; by eexists.
      * intros e. repeat case_match; done.
    + split; [|split; [done|by intros e [= <-]]].
      split; [by intros [v ?]|intros [?|Hr]; [done|]].
      apply Hidx in Hr as [? ?]. done.
  - split; [|split; [done|done]].
    split; [by left|by eexists].
Qed.

Lemma data_row_range_witness :
  let tbl := mkTable [mkNodeState "a" "active"] (lc_state_icons "/share") in
  let index := mkIndex true 1 0 in
  ((∃ v, LifecycleNodeTable.data tbl index DisplayRole = Ok v)
   ↔ isValid index = false ∨ (- 1 ≤ row index < 1)%Z)
  ∧ (isValid index = false
     → LifecycleNodeTable.data tbl index DisplayRole = Ok PyNone)
  ∧ (∀ e, LifecycleNodeTable.data tbl index DisplayRole = Raise e →
          e = Exn IndexError "list index out of range").
Proof.
  apply (data_row_range
           (mkTable [mkNodeState "a" "active"] (lc_state_icons "/share"))
           (mkIndex true 1 0) DisplayRole).
  unfold c_int. simpl. lia.
Defined.

(** X17: a cell has content only where the method provides for it: in
    column 0 under the display, decoration and font roles, in column 1
    under the display and alignment roles; every other column and role
    yields [None]. *)
Theorem data_content_cells
    (tbl : LifecycleNodeTable) (index : QModelIndex) (role : ItemDataRole)
    (v : PyValue) :
  LifecycleNodeTable.data tbl index role = Ok v →
  v ≠ PyNone →
  (column index = 0%Z
   ∧ (role = DisplayRole ∨ role = DecorationRole ∨ role = FontRole))
  ∨ (column index = 1%Z
     ∧ (role = DisplayRole ∨ role = TextAlignmentRole)).
Proof.
  unfold LifecycleNodeTable.data.
  destruct (isValid index); cbn [negb]; [|by intros [= <-]].
  destruct (py_index (_data tbl) (row index)) as [lc_node|]; [|done].
  destruct (Z.eqb_spec (column index) 0) as [H0|H0];
    destruct (Z.eqb_spec (column index) 1) as [H1|H1];
    destruct role; cbn; intros [= <-] Hv; try done; tauto.
Qed.

Lemma data_content_cells_witness :
  (0%Z = 0%Z ∧ (FontRole = DisplayRole ∨ FontRole = DecorationRole
                ∨ FontRole = FontRole))
  ∨ (0%Z = 1%Z ∧ (FontRole = DisplayRole ∨ FontRole = TextAlignmentRole)).
Proof.
  apply (data_content_cells (mkTable [mkNodeState "a" "active"]
                               (lc_state_icons "/share"))
           (mkIndex true 0 0) FontRole PyBoldFont).
  - reflexivity.
  - discriminate.
Defined.

(** X18: the header carries a label exactly for the columns that
    [columnCount] announces, and only for the horizontal header under the
    display role. *)
Theorem header_labels_match_columns
    (tbl : LifecycleNodeTable) (col : Z) (horizontal : bool)
    (role : ItemDataRole) :
  LifecycleNodeTable.headerData col horizontal role ≠ PyNone
  ↔ horizontal = true ∧ role = DisplayRole
    ∧ (0 ≤ col < Z.of_nat (LifecycleNodeTable.columnCount tbl))%Z.
Proof.
  unfold LifecycleNodeTable.headerData, LifecycleNodeTable.columnCount.
  split.
  - destruct horizontal, role; cbn; try done;
      destruct (Z.eqb_spec col 0); destruct (Z.eqb_spec col 1);
      intros H; try done; (split; [done|split; [done|lia]]).
  - intros (-> & -> & Hc). cbn.
    destruct (Z.eqb_spec col 0); [done|].
    destruct (Z.eqb_spec col 1); [done|]. lia.
Qed.

(** ** The window title *)

Lemma app_self_inv (s t : string) : s = s +:+ t → t = "".
Proof.
  induction s as [|a s IH]; cbn; [done|]. intros [= H]. by apply IH.
Qed.

(** X19: instances of the plugin with different serial numbers, counted
    from 1, get different window titles. *)
Theorem window_titles_differ (title : string) (m n : Z) :
  (1 ≤ m)%Z → (1 ≤ n)%Z → m ≠ n →
  window_title title m ≠ window_title title n.
Proof.
  intros Hm Hn Hne. unfold window_title.
  destruct (Z.ltb_spec 1 m), (Z.ltb_spec 1 n); try lia.
  - intros Heq. apply (inj (String.app title)) in Heq.
    apply (inj (String.app " ")) in Heq. by apply (inj pretty) in Heq.
  - intros Heq. symmetry in Heq. apply app_self_inv in Heq. done.
  - intros Heq. apply app_self_inv in Heq. done.
Qed.

Lemma window_titles_differ_witness :
  window_title "Lifecycle Manager" 1 ≠ window_title "Lifecycle Manager" 2.
Proof.
  apply (window_titles_differ "Lifecycle Manager" 1 2); lia.
Defined.
